(** * Portfolio dashboard: the performance metrics of [Home.py] and [main.py]

    A shallow embedding of the metrics sections of the two dashboard scripts
    ([Home.py] lines 22-45, 68-105 and 121-126, [main.py] lines 15-34 and
    122-129) together with the pandas / numpy operations they call, and the
    properties the specification states about them.

    Modelling conventions.
    - A calendar date ([pd.to_datetime]) is its day number, an integer;
      [(end_date - start_date).days] is the difference of two day numbers.
    - A double is a [float]: not-a-number, an infinity, or a finite value.
      Finite values are exact rationals, so rounding is abstracted away and
      the sign of a zero is not tracked; what is kept is the behaviour that
      decides the control flow and the error cases (division by zero gives an
      infinity or NaN in numpy and raises in plain Python, NaN compares
      unequal to everything, pandas reductions skip NaN).
    - [**] on doubles is C's [pow]; its value on generic arguments is not a
      rational, so it is the parameter [powr], with the two exact cases
      [pow(x, 0) = 1] and [pow(1, y) = 1] written out.
    - [DataFrame.sort_values] with its default [kind="quicksort"] orders
      the rows by date but does not keep the rows of one date in the order
      of the file: numpy's quicksort sorts a frame of at most 16 rows by
      insertion, which keeps that order, and partitions a longer one around
      a median of three, which does not.  [np_sort_values] is that
      algorithm.  [sort_values] is the insertion sort alone; it stands for
      the date sort in the statements that do not depend on the order of
      the rows within a date.
    - The value column is a column of doubles, except in
      [Home.drawdown_uint64], where it is typed [uint64] and the
      subtraction wraps around. *)

From Stdlib Require Import String ZArith QArith Qcanon Qcabs List Bool Lia.
From Stdlib Require Import Sorting.Sorted Sorting.Permutation Setoid Field.
Import ListNotations.

Set Implicit Arguments.

(** ** Doubles *)

Inductive float : Type :=
| NaN
| Inf (negative : bool)
| Fin (q : Qc).

Definition of_int (z : Z) : float := Fin (Q2Qc (inject_Z z)).
Definition of_frac (n : Z) (d : positive) : float := Fin (Q2Qc (n # d)).

Definition zero : float := of_int 0.
Definition one : float := of_int 1.

Definition is_nan (x : float) : bool :=
  match x with NaN => true | _ => false end.

Definition Qc_ltb (a b : Qc) : bool :=
  match (a ?= b)%Qc with Lt => true | _ => false end.

Definition Qc_eqb (a b : Qc) : bool :=
  match (a ?= b)%Qc with Eq => true | _ => false end.

(** [x < y]; false as soon as one side is NaN. *)
Definition flt (x y : float) : bool :=
  match x, y with
  | NaN, _ | _, NaN => false
  | Inf s, Inf t => s && negb t
  | Inf s, Fin _ => s
  | Fin _, Inf t => negb t
  | Fin a, Fin b => Qc_ltb a b
  end.

Definition fgt (x y : float) : bool := flt y x.

(** [x == y]; NaN equals nothing, itself included. *)
Definition feq (x y : float) : bool :=
  match x, y with
  | Inf s, Inf t => Bool.eqb s t
  | Fin a, Fin b => Qc_eqb a b
  | _, _ => false
  end.

(** [x != y] *)
Definition fne (x y : float) : bool := negb (feq x y).

Definition fsub (x y : float) : float :=
  match x, y with
  | NaN, _ | _, NaN => NaN
  | Inf s, Inf t => if Bool.eqb s t then NaN else Inf s
  | Inf s, Fin _ => Inf s
  | Fin _, Inf t => Inf (negb t)
  | Fin a, Fin b => Fin (a - b)
  end.

(** numpy's division of doubles: never raises; a zero divisor gives an
    infinity, or NaN for [0 / 0]. *)
Definition fdiv (x y : float) : float :=
  match x, y with
  | NaN, _ | _, NaN => NaN
  | Inf _, Inf _ => NaN
  | Inf s, Fin b => Inf (xorb s (Qc_ltb b 0))
  | Fin _, Inf _ => zero
  | Fin a, Fin b =>
      if Qc_eqb b 0 then
        match (a ?= 0)%Qc with
        | Eq => NaN
        | Gt => Inf false
        | Lt => Inf true
        end
      else Fin (a / b)
  end.

Definition fabs (x : float) : float :=
  match x with
  | NaN => NaN
  | Inf _ => Inf false
  | Fin q => Fin (Qcabs q)
  end.

Definition fmax (x y : float) : float := if flt x y then y else x.
Definition fmin (x y : float) : float := if flt y x then y else x.

Definition Qc_leb (a b : Qc) : bool :=
  match (a ?= b)%Qc with Gt => false | _ => true end.

(** [x <= y] and [x >= y]; false as soon as one side is NaN. *)
Definition fle (x y : float) : bool :=
  match x, y with
  | NaN, _ | _, NaN => false
  | Inf s, Inf t => s || negb t
  | Inf s, Fin _ => s
  | Fin _, Inf t => negb t
  | Fin a, Fin b => Qc_leb a b
  end.

Definition fge (x y : float) : bool := fle y x.

Definition fadd (x y : float) : float :=
  match x, y with
  | NaN, _ | _, NaN => NaN
  | Inf s, Inf t => if Bool.eqb s t then Inf s else NaN
  | Inf s, Fin _ => Inf s
  | Fin _, Inf t => Inf t
  | Fin a, Fin b => Fin (a + b)
  end.

Definition fmul (x y : float) : float :=
  match x, y with
  | NaN, _ | _, NaN => NaN
  | Inf s, Inf t => Inf (xorb s t)
  | Inf s, Fin b => if Qc_eqb b 0 then NaN else Inf (xorb s (Qc_ltb b 0))
  | Fin a, Inf t => if Qc_eqb a 0 then NaN else Inf (xorb t (Qc_ltb a 0))
  | Fin a, Fin b => Fin (a * b)
  end.

(** ** Exceptions *)

Inductive exn : Type := IndexError | ZeroDivisionError.

Inductive result (A : Type) : Type :=
| Ok (a : A)
| Raise (e : exn).

Arguments Ok {A} a.
Arguments Raise {A} e.

Definition bind {A B : Type} (m : result A) (k : A -> result B) : result B :=
  match m with
  | Ok a => k a
  | Raise e => Raise e
  end.

Notation "'do' x <- m ;; k" := (bind m (fun x => k))
  (at level 10, x name, m at level 100, k at level 200).

(** Python's [/] on a plain [float] divisor raises on zero. *)
Definition py_truediv (x y : float) : result float :=
  if feq y zero then Raise ZeroDivisionError else Ok (fdiv x y).

(** [x ** y] on doubles. *)
Definition float_pow (powr : float -> float -> float) (x y : float) : float :=
  if feq y zero then one
  else if feq x one then one
  else powr x y.

(** ** pandas *)

(** A cell of the [total_portfolio_value] column as read from the CSV: a
    number, or a text that does not parse as one. *)
Inductive cell : Type :=
| Number (x : float)
| Malformed (s : string).

(** [pd.to_numeric(_, errors="coerce")] on one cell. *)
Definition coerce (c : cell) : float :=
  match c with
  | Number x => x
  | Malformed _ => NaN
  end.

(** The two columns the metrics read: [current_date] and
    [total_portfolio_value]. *)
Definition DataFrame (A : Type) : Type := list (Z * A).
Definition Series : Type := list (Z * float).

Definition to_numeric (df : DataFrame cell) : DataFrame float :=
  map (fun r => (fst r, coerce (snd r))) df.

Section Frames.
Context {A : Type}.

Fixpoint insert_by_date (r : Z * A) (df : DataFrame A) : DataFrame A :=
  match df with
  | [] => [r]
  | r' :: df' =>
      if (fst r <=? fst r')%Z then r :: df else r' :: insert_by_date r df'
  end.

(** The frame ordered by date, the rows of one date in the order of the
    file: [df.sort_values(by=date_column)] on a frame of at most 16 rows,
    and [Series.sort_index()] on an index without duplicates.  On a longer
    frame pandas may order the rows of one date differently, see
    [np_sort_values]. *)
Definition sort_values (df : DataFrame A) : DataFrame A :=
  fold_right insert_by_date [] df.

Definition get_group (d : Z) (df : DataFrame A) : list A :=
  map snd (filter (fun r => (fst r =? d)%Z) df).
End Frames.

Fixpoint insert_key (d : Z) (ks : list Z) : list Z :=
  match ks with
  | [] => [d]
  | k :: ks' =>
      match (d ?= k)%Z with
      | Lt => d :: ks
      | Eq => ks
      | Gt => k :: insert_key d ks'
      end
  end.

(** The group keys of [df.groupby(date_column)]: the distinct dates,
    ascending. *)
Definition group_keys {A : Type} (df : DataFrame A) : list Z :=
  fold_right insert_key [] (map fst df).

(** [GroupBy.last()] on one group: the last entry that is not NaN, NaN when
    there is none. *)
Definition last_valid (vs : list float) : float :=
  fold_left (fun acc v => if is_nan v then acc else v) vs NaN.

(** [df.groupby(date_column)["total_portfolio_value"].last()] *)
Definition groupby_last (df : DataFrame float) : Series :=
  map (fun d => (d, last_valid (get_group d df))) (group_keys df).

Definition sort_index (s : Series) : Series := sort_values s.

(** Positional access, [.iloc[i]] and [.index[i]], negative positions
    counted from the end. *)
Definition iloc {A : Type} (l : list A) (i : Z) : result A :=
  let n := Z.of_nat (length l) in
  let j := if (i <? 0)%Z then (n + i)%Z else i in
  if ((0 <=? j) && (j <? n))%Z%bool then
    match nth_error l (Z.to_nat j) with
    | Some a => Ok a
    | None => Raise IndexError
    end
  else Raise IndexError.

Fixpoint cummax_from (acc : option float) (vs : list float) : list float :=
  match vs with
  | [] => []
  | v :: vs' =>
      if is_nan v then NaN :: cummax_from acc vs'
      else
        let m := match acc with None => v | Some a => fmax a v end in
        m :: cummax_from (Some m) vs'
  end.

(** [Series.cummax()]: NaN entries stay NaN and are skipped. *)
Definition cummax (vs : list float) : list float := cummax_from None vs.

(** [Series.min()]: NaN entries are skipped; NaN when nothing is left. *)
Definition series_min (vs : list float) : float :=
  match filter (fun v => negb (is_nan v)) vs with
  | [] => NaN
  | v :: vs' => fold_left fmin vs' v
  end.

Definition zip_with {A B C : Type} (f : A -> B -> C) (l : list A) (l' : list B)
  : list C :=
  map (fun p => f (fst p) (snd p)) (combine l l').

Fixpoint ffill_from (prev : float) (vs : list float) : list float :=
  match vs with
  | [] => []
  | v :: vs' =>
      let w := if is_nan v then prev else v in
      w :: ffill_from w vs'
  end.

(** [Series.ffill()]: a NaN takes the last value that is not NaN before
    it, when there is one. *)
Definition ffill (vs : list float) : list float := ffill_from NaN vs.

(** [Series.shift(1)]: every value moves one position down, the first
    position is NaN, the last value is dropped. *)
Definition shift (vs : list float) : list float :=
  match vs with
  | [] => []
  | _ :: _ => NaN :: removelast vs
  end.

(** [Series.pct_change()]: [data / data.shift(1) - 1], where [data] is the
    series filled forward when [pad] is set ([fill_method="pad"], the
    default before pandas 3) and the series itself otherwise. *)
Definition pct_change (pad : bool) (s : Series) : Series :=
  let data := if pad then ffill (map snd s) else map snd s in
  combine (map fst s)
          (zip_with (fun x y => fsub (fdiv x y) one) data (shift data)).

(** [Series.dropna()] *)
Definition dropna (s : Series) : Series :=
  filter (fun r => negb (is_nan (snd r))) s.

Fixpoint cumprod_from (acc : float) (vs : list float) : list float :=
  match vs with
  | [] => []
  | v :: vs' =>
      if is_nan v then NaN :: cumprod_from acc vs'
      else let p := fmul acc v in p :: cumprod_from p vs'
  end.

(** [Series.cumprod()]: NaN entries stay NaN and are skipped. *)
Definition cumprod (vs : list float) : list float := cumprod_from one vs.

(** The left result of [s.align(other, join="inner")] for two series
    with one entry per date: the entries of [s] whose date [other] has. *)
Definition align_inner (s other : Series) : Series :=
  filter (fun r => existsb (Z.eqb (fst r)) (map fst other)) s.

(** [Series.max()] of a column of dates; [None] is NaT, for no rows. *)
Definition dates_max (ds : list Z) : option Z :=
  fold_right (fun d acc =>
                match acc with
                | None => Some d
                | Some m => Some (Z.max d m)
                end) None ds.

(** The columns the holdings table reads, besides [current_date]. *)
Record Holding : Type := {
  status : string;
  ticker : string;
  shares_qty : cell;
  bought_price : cell;
  current_price : cell;
  current_value : cell
}.

(** *** numpy's indirect quicksort

    [sort_values] sorts through [argsort(kind="quicksort")] on the dates:
    an array [a] of row numbers is permuted until the dates [v] read
    through it ascend.  Positions are integers, as the pointers of the C
    code are, since [pr] may come to stand before the first position. *)

Fixpoint update {A : Type} (n : nat) (x : A) (l : list A) : list A :=
  match l, n with
  | [], _ => []
  | _ :: l', O => x :: l'
  | y :: l', S n' => y :: update n' x l'
  end.

Definition np_get (a : list nat) (p : Z) : nat := nth (Z.to_nat p) a 0%nat.

Definition np_set (a : list nat) (p : Z) (x : nat) : list nat :=
  update (Z.to_nat p) x a.

(** [v[*p]] *)
Definition np_key (v : list Z) (a : list nat) (p : Z) : Z :=
  nth (np_get a p) v 0%Z.

Definition np_swap (a : list nat) (p q : Z) : list nat :=
  np_set (np_set a p (np_get a q)) q (np_get a p).

(** The median of the first, middle and last date is put in the middle. *)
Definition np_median3 (v : list Z) (a : list nat) (pl pm pr : Z) : list nat :=
  let a := if (np_key v a pm <? np_key v a pl)%Z then np_swap a pm pl else a in
  let a := if (np_key v a pr <? np_key v a pm)%Z then np_swap a pr pm else a in
  if (np_key v a pm <? np_key v a pl)%Z then np_swap a pm pl else a.

(** [do ++pi; while (v[*pi] < vp)] *)
Fixpoint np_scan_up (fuel : nat) (v : list Z) (a : list nat) (vp pi : Z) : Z :=
  match fuel with
  | O => pi
  | S f =>
      let pi := (pi + 1)%Z in
      if (np_key v a pi <? vp)%Z then np_scan_up f v a vp pi else pi
  end.

(** [do --pj; while (vp < v[*pj])] *)
Fixpoint np_scan_down (fuel : nat) (v : list Z) (a : list nat) (vp pj : Z)
  : Z :=
  match fuel with
  | O => pj
  | S f =>
      let pj := (pj - 1)%Z in
      if (vp <? np_key v a pj)%Z then np_scan_down f v a vp pj else pj
  end.

Fixpoint np_exchange (fuel : nat) (v : list Z) (a : list nat) (vp pi pj : Z)
  : list nat * Z :=
  match fuel with
  | O => (a, pi)
  | S f =>
      let pi := np_scan_up (length a) v a vp pi in
      let pj := np_scan_down (length a) v a vp pj in
      if (pj <=? pi)%Z then (a, pi)
      else np_exchange f v (np_swap a pi pj) vp pi pj
  end.

(** One partition of the positions [pl .. pr]; the result is the array and
    the position of the pivot. *)
Definition np_partition (v : list Z) (a : list nat) (pl pr : Z)
  : list nat * Z :=
  let pm := (pl + Z.shiftr (pr - pl) 1)%Z in
  let a := np_median3 v a pl pm pr in
  let vp := np_key v a pm in
  let a := np_swap a pm (pr - 1) in
  let '(a, pi) := np_exchange (length a) v a vp pl (pr - 1)%Z in
  (np_swap a pi (pr - 1), pi).

Fixpoint np_shift_right (fuel : nat) (v : list Z) (a : list nat)
         (pl vp pj : Z) : list nat * Z :=
  match fuel with
  | O => (a, pj)
  | S f =>
      if ((pl <? pj) && (vp <? np_key v a (pj - 1)))%Z%bool
      then np_shift_right f v (np_set a pj (np_get a (pj - 1))) pl vp (pj - 1)%Z
      else (a, pj)
  end.

Definition np_insert_one (v : list Z) (a : list nat) (pl pi : Z) : list nat :=
  let vi := np_get a pi in
  let '(a, pj) := np_shift_right (length a) v a pl (nth vi v 0%Z) pi in
  np_set a pj vi.

Fixpoint np_insertion_from (count : nat) (v : list Z) (a : list nat)
         (pl pi : Z) : list nat :=
  match count with
  | O => a
  | S c => np_insertion_from c v (np_insert_one v a pl pi) pl (pi + 1)%Z
  end.

(** The insertion sort of the positions [pl .. pr]. *)
Definition np_insertion_sort (v : list Z) (a : list nat) (pl pr : Z)
  : list nat :=
  np_insertion_from (Z.to_nat (pr - pl)) v a pl (pl + 1)%Z.

(** A run of 17 positions or more is partitioned, a shorter one is sorted
    by insertion. *)
Definition np_is_long (pl pr : Z) : bool := (15 <? pr - pl)%Z.

(** The partition loop: the larger side is pushed on the stack with the
    depth left, the smaller side is partitioned further. *)
Fixpoint np_partition_loop (fuel : nat) (v : list Z) (a : list nat)
         (pl pr : Z) (stack : list (Z * Z * Z)) (cdepth : Z)
  : list nat * Z * Z * list (Z * Z * Z) :=
  match fuel with
  | O => (a, pl, pr, stack)
  | S f =>
      if np_is_long pl pr then
        let '(a, pi) := np_partition v a pl pr in
        let cdepth := (cdepth - 1)%Z in
        if (pi - pl <? pr - pi)%Z
        then np_partition_loop f v a pl (pi - 1)%Z
                               ((pi + 1, pr, cdepth)%Z :: stack) cdepth
        else np_partition_loop f v a (pi + 1)%Z pr
                               ((pl, pi - 1, cdepth)%Z :: stack) cdepth
      else (a, pl, pr, stack)
  end.

(** The whole sort.  When the depth allowed, twice the binary logarithm of
    the length, is used up, numpy sorts the run by heapsort; that branch is
    not modelled and gives [None], as does running out of fuel. *)
Fixpoint np_quicksort_loop (fuel : nat) (v : list Z) (a : list nat)
         (pl pr : Z) (stack : list (Z * Z * Z)) (cdepth : Z)
  : option (list nat) :=
  match fuel with
  | O => None
  | S f =>
      if (cdepth <? 0)%Z then None
      else
        let '(a, pl, pr, stack) :=
          np_partition_loop (length a) v a pl pr stack cdepth in
        let a := np_insertion_sort v a pl pr in
        match stack with
        | [] => Some a
        | (pl, pr, cdepth) :: stack => np_quicksort_loop f v a pl pr stack cdepth
        end
  end.

(** [v.argsort(kind="quicksort")] *)
Definition np_argsort (v : list Z) : option (list nat) :=
  let n := Z.of_nat (length v) in
  np_quicksort_loop (S (length v)) v (seq 0 (length v)) 0%Z (n - 1)%Z []
                    (2 * Z.log2 n)%Z.

(** [df.sort_values(by=date_column)]: the rows taken in the order of
    [np_argsort] on their dates. *)
Definition np_sort_values {A : Type} (df : DataFrame A)
  : option (DataFrame A) :=
  match np_argsort (map fst df) with
  | Some a =>
      Some (flat_map (fun i => match nth_error df i with
                               | Some r => [r]
                               | None => []
                               end) a)
  | None => None
  end.

(** *** Integer columns *)

(** [Series.cummax()] on a column of integers. *)
Fixpoint cummax_int_from (acc : Z) (vs : list Z) : list Z :=
  match vs with
  | [] => []
  | v :: vs' => let m := Z.max acc v in m :: cummax_int_from m vs'
  end.

Definition cummax_int (vs : list Z) : list Z :=
  match vs with
  | [] => []
  | v :: vs' => v :: cummax_int_from v vs'
  end.

(** [a - b] on [uint64]: the difference modulo [2^64]. *)
Definition uint64_sub (a b : Z) : Z := ((a - b) mod 2 ^ 64)%Z.

(** The values the dashboard shows as KPIs. *)
Record MetricsResult : Type := {
  mr_total_return : float;
  mr_cagr : float;
  mr_drawdown : list float;
  mr_max_drawdown : float;
  mr_sharpe_ratio : float
}.

Definition days_per_year : float := of_frac 1461 4.

(** ** [Home.py], lines 68-105 *)

Module Home.

(** Lines 68-72: the frame sorted by date, the value column coerced. *)
Definition main_df (csv : DataFrame cell) : DataFrame float :=
  to_numeric (sort_values csv).

(** Line 79: one value per date. *)
Definition portfolio_values (csv : DataFrame cell) : Series :=
  sort_index (groupby_last (main_df csv)).

(** Line 82 *)
Definition total_return (pv : Series) : result float :=
  do last <- iloc (map snd pv) (-1) ;;
  do first <- iloc (map snd pv) 0 ;;
  Ok (fsub (fdiv last first) one).

(** Lines 85-88 *)
Definition days (pv : Series) : result Z :=
  do start_date <- iloc (map fst pv) 0 ;;
  do end_date <- iloc (map fst pv) (-1) ;;
  Ok (end_date - start_date)%Z.

Definition years (pv : Series) : result float :=
  do d <- days pv ;;
  py_truediv (of_int d) days_per_year.

(** Lines 91-94 *)
Definition cagr (powr : float -> float -> float) (pv : Series)
  : result float :=
  do y <- years pv ;;
  if fgt y zero then
    do last <- iloc (map snd pv) (-1) ;;
    do first <- iloc (map snd pv) 0 ;;
    do e <- py_truediv one y ;;
    Ok (fsub (float_pow powr (fdiv last first) e) one)
  else Ok zero.

(** Lines 97-99, on a column of doubles; [drawdown_uint64] below is line
    98 on a column typed [uint64]. *)
Definition running_max (pv : Series) : list float := cummax (map snd pv).

Definition drawdown (pv : Series) : list float :=
  zip_with (fun v m => fdiv (fsub v m) m) (map snd pv) (running_max pv).

Definition max_drawdown (pv : Series) : float := series_min (drawdown pv).

(** Lines 102-105 *)
Definition sharpe_ratio (cagr max_drawdown : float) : result float :=
  if fne max_drawdown zero then Ok (fdiv cagr (fabs max_drawdown))
  else Ok zero.

(** Lines 82-105 as one computation: the spec's [compute_metrics]. *)
Definition compute_metrics (powr : float -> float -> float) (pv : Series)
  : result MetricsResult :=
  do tr <- total_return pv ;;
  do c <- cagr powr pv ;;
  let dd := drawdown pv in
  let mdd := max_drawdown pv in
  do sr <- sharpe_ratio c mdd ;;
  Ok {| mr_total_return := tr;
        mr_cagr := c;
        mr_drawdown := dd;
        mr_max_drawdown := mdd;
        mr_sharpe_ratio := sr |}.

(** Lines 22-26, for a file whose value column [read_csv] parses as
    numbers (an empty cell is NaN): one value per date. *)
Definition portfolio (df : DataFrame float) : Series :=
  groupby_last (sort_values df).

(** Line 27 *)
Definition portfolio_returns (pad : bool) (portfolio : Series) : Series :=
  dropna (pct_change pad portfolio).

(** Line 39: the portfolio side of the inner join with the benchmark. *)
Definition port_ret (portfolio_returns benchmark_returns : Series) : Series :=
  align_inner portfolio_returns benchmark_returns.

(** Line 44 *)
Definition port_cum (port_ret : Series) : Series :=
  combine (map fst port_ret) (cumprod (map (fadd one) (map snd port_ret))).

(** Lines 121-126, on the frame sorted by date at line 71. *)
Definition latest_date (df : DataFrame Holding) : option Z :=
  dates_max (map fst df).

Definition latest_data (df : DataFrame Holding) : DataFrame Holding :=
  match latest_date df with
  | Some m => filter (fun r => (fst r =? m)%Z) df
  | None => []
  end.

Definition only_data (df : DataFrame Holding) : DataFrame Holding :=
  filter (fun r => String.eqb (status (snd r)) "Held") (latest_data df).

Definition data_to_show (df : DataFrame Holding)
  : list (string * cell * cell * cell * cell) :=
  map (fun r => (ticker (snd r), shares_qty (snd r), bought_price (snd r),
                 current_price (snd r), current_value (snd r)))
      (only_data df).

(** Line 144: the colour of a bar of the monthly chart. *)
Definition color (x : float) : string :=
  if fgt x zero then "green"%string else "red"%string.

(** Lines 226-227: the style of a cell of the yearly table. *)
Definition color_return (val : float) : string :=
  if fge val zero then "color: green; font-weight:600"%string
  else "color: red; font-weight:600"%string.

(** Lines 68-79 with the date sort as numpy performs it. *)
Definition portfolio_values_quicksort (csv : DataFrame cell) : option Series :=
  match np_sort_values csv with
  | Some sorted => Some (sort_index (groupby_last (to_numeric sorted)))
  | None => None
  end.

(** Lines 97-98 on a value column typed [uint64] (every value a
    non-negative integer, one of them [2^63] or more): the subtraction is
    done on [uint64] and wraps around, the division gives doubles. *)
Definition drawdown_uint64 (values : list Z) : list float :=
  zip_with (fun v m => fdiv (of_int (uint64_sub v m)) (of_int m))
           values (cummax_int values).

End Home.

(** ** [main.py], lines 15-34 and 122-129 *)

Module Main.

(** Lines 15-20 *)
Definition main_df (csv : DataFrame cell) : DataFrame float :=
  to_numeric (sort_values csv).

(** Line 25: the raw column, one entry per row. *)
Definition portfolio_value (df : DataFrame float) : list float := map snd df.

(** Line 27 *)
Definition total_return (df : DataFrame float) : result float :=
  do last <- iloc (portfolio_value df) (-1) ;;
  do first <- iloc (portfolio_value df) 0 ;;
  Ok (fsub (fdiv last first) one).

(** Lines 28-29 *)
Definition days (df : DataFrame float) : result Z :=
  do end_date <- iloc (map fst df) (-1) ;;
  do start_date <- iloc (map fst df) 0 ;;
  Ok (end_date - start_date)%Z.

Definition years (df : DataFrame float) : result float :=
  do d <- days df ;;
  py_truediv (of_int d) days_per_year.

(** Line 30: no test of [years] before [1 / years]. *)
Definition cagr (powr : float -> float -> float) (df : DataFrame float)
  : result float :=
  do y <- years df ;;
  do last <- iloc (portfolio_value df) (-1) ;;
  do first <- iloc (portfolio_value df) 0 ;;
  do e <- py_truediv one y ;;
  Ok (fsub (float_pow powr (fdiv last first) e) one).

(** Lines 32-34 *)
Definition running_max (df : DataFrame float) : list float :=
  cummax (portfolio_value df).

Definition drawdown (df : DataFrame float) : list float :=
  zip_with (fun v m => fdiv (fsub v m) m) (portfolio_value df) (running_max df).

Definition max_drawdown (df : DataFrame float) : float :=
  series_min (drawdown df).

(** Lines 122-123, on the frame of the drawdown chart, which has one row
    per date (line 119). *)
Definition chart_drawdown (df : DataFrame float) : list float :=
  zip_with (fun v m => fsub (fdiv v m) one) (map snd df) (cummax (map snd df)).

(** Lines 27-34 as one computation. *)
Definition metrics (powr : float -> float -> float) (df : DataFrame float)
  : result (float * float * float) :=
  do tr <- total_return df ;;
  do c <- cagr powr df ;;
  Ok (tr, c, max_drawdown df).

(** Line 63: the colour of a bar of the monthly chart. *)
Definition color (x : float) : string :=
  if fgt x zero then "green"%string else "red"%string.

(** Lines 126-129: the rows of the underwater plot. *)
Definition dd_df (df : DataFrame float) : list (Z * float) :=
  combine (map fst df) (chart_drawdown df).

End Main.

(** ** Vocabulary of the specification *)

(** [series.first] and [series.last]. *)
Definition first_entry (pv : Series) : option (Z * float) := hd_error pv.
Definition last_entry (pv : Series) : option (Z * float) := hd_error (rev pv).

(** A valuation series has one entry per date, ascending. *)
Definition ascending (pv : Series) : Prop := StronglySorted Z.lt (map fst pv).

(** [(last date - first date) in days / 365.25] *)
Definition years_between (d0 dn : Z) : Qc :=
  (Q2Qc (inject_Z (dn - d0)) / Q2Qc (1461 # 4))%Qc.

Definition Qc_max (a b : Qc) : Qc := if Qc_ltb a b then b else a.
Definition Qc_min (a b : Qc) : Qc := if Qc_ltb b a then b else a.

(** The running maximum of [values[0..i]]. *)
Definition running_peak (qs : list Qc) (i : nat) : Qc :=
  match firstn (S i) qs with
  | [] => 0%Qc
  | q :: r => fold_left Qc_max r q
  end.

(** [v] is the value of the last row of date [d], in the order of the input,
    whose cell is a number. *)
Definition last_entry_for (d : Z) (v : float) (csv : DataFrame cell) : Prop :=
  exists before c after,
    csv = before ++ (d, c) :: after /\
    coerce c = v /\
    is_nan v = false /\
    forall c', In (d, c') after -> is_nan (coerce c') = true.

(** The relative change of each value against the one before it, [prev]
    being the value before the first. *)
Fixpoint returns_from (prev : Qc) (qs : list Qc) : list Qc :=
  match qs with
  | [] => []
  | q :: r => (q / prev - 1)%Qc :: returns_from q r
  end.

(** A file with two rows for each of the nine days from 2023-01-01 on. *)
Definition duplicated_dates_file : DataFrame cell :=
  [(19358, Number (of_int 1000)); (19358, Number (of_int 1001));
   (19359, Number (of_int 1002)); (19359, Number (of_int 1003));
   (19360, Number (of_int 1004)); (19360, Number (of_int 1005));
   (19361, Number (of_int 1006)); (19361, Number (of_int 1007));
   (19362, Number (of_int 1008)); (19362, Number (of_int 1009));
   (19363, Number (of_int 1010)); (19363, Number (of_int 1011));
   (19364, Number (of_int 1012)); (19364, Number (of_int 1013));
   (19365, Number (of_int 1014)); (19365, Number (of_int 1015));
   (19366, Number (of_int 1016)); (19366, Number (of_int 1017))]%Z.

(** The columns of a row that the holdings table shows. *)
Definition shown_columns (h : Holding)
  : string * cell * cell * cell * cell :=
  (ticker h, shares_qty h, bought_price h, current_price h, current_value h).

(** Whether a row counts as a current holding. *)
Definition is_held (h : Holding) : bool := String.eqb (status h) "Held".

(** A sample row of the holdings columns. *)
Definition holding (st tk : string) (value : Z) : Holding :=
  {| status := st; ticker := tk;
     shares_qty := Number (of_int 10);
     bought_price := Number (of_int 90);
     current_price := Number (of_int 100);
     current_value := Number (of_int value) |}.

(** A stand-in for [powr] in closed examples. *)
Definition pow_stub (x y : float) : float := NaN.

(** Sample dates: 2023-01-01, 2023-07-01 and 2024-01-01 as day numbers. *)
Definition date_2023_01_01 : Z := 19358.
Definition date_2023_07_01 : Z := 19539.
Definition date_2024_01_01 : Z := 19723.

(** Closed equations between rationals, whatever their proofs of
    canonicity. *)
Ltac qc_compute :=
  repeat match goal with
    | |- Ok _ = Ok _ => apply f_equal
    | |- Fin _ = Fin _ => apply f_equal
    | |- @eq Qc _ _ => apply Qc_is_canon; vm_compute; reflexivity
    end.

(** * Properties *)

(** ** Rationals and doubles *)

Local Open Scope Qc_scope.
Local Open Scope list_scope.

Lemma Qc_ltb_lt (a b : Qc) : Qc_ltb a b = true <-> a < b.
Proof.
  unfold Qc_ltb. rewrite Qclt_alt.
  destruct (a ?= b); split; congruence.
Qed.

Lemma Qc_ltb_ge (a b : Qc) : Qc_ltb a b = false <-> b <= a.
Proof.
  split; intro H.
  - apply Qcnot_lt_le. intro L. apply Qc_ltb_lt in L. congruence.
  - destruct (Qc_ltb a b) eqn:E; [|reflexivity].
    apply Qc_ltb_lt in E. exfalso. exact (Qcle_not_lt _ _ H E).
Qed.

Lemma Qc_eqb_eq (a b : Qc) : Qc_eqb a b = true <-> a = b.
Proof.
  unfold Qc_eqb. rewrite Qceq_alt.
  destruct (a ?= b); split; congruence.
Qed.

Lemma Qc_eqb_neq (a b : Qc) : Qc_eqb a b = false <-> a <> b.
Proof.
  rewrite <- Qc_eqb_eq. destruct (Qc_eqb a b); split; congruence.
Qed.

Lemma Qc_eqb_refl (a : Qc) : Qc_eqb a a = true.
Proof. apply Qc_eqb_eq. reflexivity. Qed.

Lemma Qclt_neq_sym (a b : Qc) : a < b -> b <> a.
Proof. intros H E. subst. exact (Qclt_not_eq _ _ H eq_refl). Qed.

Lemma fdiv_fin (a b : Qc) : b <> 0 -> fdiv (Fin a) (Fin b) = Fin (a / b).
Proof.
  intro H. unfold fdiv. apply Qc_eqb_neq in H. rewrite H. reflexivity.
Qed.

Lemma fdiv_zero_pos (a : Qc) : 0 < a -> fdiv (Fin a) zero = Inf false.
Proof.
  intro H. unfold fdiv, zero, of_int.
  change (Q2Qc (inject_Z 0)) with 0.
  rewrite Qc_eqb_refl.
  assert (G : (a ?= 0) = Gt) by (apply Qcgt_alt; exact H).
  rewrite G. reflexivity.
Qed.

Lemma fsub_fin (a b : Qc) : fsub (Fin a) (Fin b) = Fin (a - b).
Proof. reflexivity. Qed.

Lemma one_fin : one = Fin 1.
Proof. reflexivity. Qed.

Lemma feq_fin_zero (m : Qc) : feq (Fin m) zero = Qc_eqb m 0.
Proof. reflexivity. Qed.

Lemma Qcabs_eq_0 (m : Qc) : Qcabs m = 0 -> m = 0.
Proof.
  intro H. destruct (Qclt_le_dec m 0) as [L|L].
  - rewrite Qcabs_neg in H by (apply Qclt_le_weak; exact L).
    rewrite <- (Qcopp_involutive m), H. reflexivity.
  - rewrite Qcabs_pos in H by exact L. exact H.
Qed.

(** ** Positional access *)

Lemma iloc_first {A : Type} (l : list A) :
  iloc l 0 = match hd_error l with Some a => Ok a | None => Raise IndexError end.
Proof.
  unfold iloc. destruct l as [|a l]; simpl; [reflexivity|].
  replace (0 <? Z.pos (Pos.of_succ_nat (length l)))%Z with true
    by (symmetry; apply Z.ltb_lt; lia).
  reflexivity.
Qed.

Lemma nth_error_last {A : Type} (l : list A) (a : A) :
  nth_error (l ++ [a]) (length l) = Some a.
Proof. induction l; simpl; auto. Qed.

Lemma iloc_last {A : Type} (l : list A) :
  iloc l (-1) =
  match hd_error (rev l) with Some a => Ok a | None => Raise IndexError end.
Proof.
  destruct (rev l) as [|a r] eqn:E.
  - assert (l = []) by (rewrite <- (rev_involutive l), E; reflexivity).
    subst. reflexivity.
  - assert (L : l = rev r ++ [a])
      by (rewrite <- (rev_involutive l), E; reflexivity).
    subst l. unfold iloc. simpl hd_error.
    rewrite length_app. simpl length.
    replace (-1 <? 0)%Z with true by reflexivity.
    set (n := length (rev r)).
    replace (Z.of_nat (n + 1) + -1)%Z with (Z.of_nat n) by lia.
    replace ((0 <=? Z.of_nat n)%Z && (Z.of_nat n <? Z.of_nat (n + 1))%Z)
      with true
      by (symmetry; apply andb_true_iff; split;
          [apply Z.leb_le | apply Z.ltb_lt]; lia).
    rewrite Nat2Z.id. unfold n. rewrite nth_error_last. reflexivity.
Qed.

Lemma first_entry_map {A : Type} (f : Z * float -> A) (pv : Series) e :
  first_entry pv = Some e -> hd_error (map f pv) = Some (f e).
Proof.
  unfold first_entry. destruct pv; simpl; intro H; inversion H; reflexivity.
Qed.

Lemma last_entry_map {A : Type} (f : Z * float -> A) (pv : Series) e :
  last_entry pv = Some e -> hd_error (rev (map f pv)) = Some (f e).
Proof.
  unfold last_entry. rewrite <- map_rev.
  destruct (rev pv); simpl; intro H; inversion H; reflexivity.
Qed.

Lemma iloc_first_value (pv : Series) d v :
  first_entry pv = Some (d, v) -> iloc (map snd pv) 0 = Ok v.
Proof.
  intro H. rewrite iloc_first, (first_entry_map snd _ H). reflexivity.
Qed.

Lemma iloc_last_value (pv : Series) d v :
  last_entry pv = Some (d, v) -> iloc (map snd pv) (-1) = Ok v.
Proof.
  intro H. rewrite iloc_last, (last_entry_map snd _ H). reflexivity.
Qed.

Lemma iloc_first_date (pv : Series) d v :
  first_entry pv = Some (d, v) -> iloc (map fst pv) 0 = Ok d.
Proof.
  intro H. rewrite iloc_first, (first_entry_map fst _ H). reflexivity.
Qed.

Lemma iloc_last_date (pv : Series) d v :
  last_entry pv = Some (d, v) -> iloc (map fst pv) (-1) = Ok d.
Proof.
  intro H. rewrite iloc_last, (last_entry_map fst _ H). reflexivity.
Qed.

(** ** Total return *)

Lemma total_return_value (pv : Series) d0 v0 dn vn :
  first_entry pv = Some (d0, v0) ->
  last_entry pv = Some (dn, vn) ->
  Home.total_return pv = Ok (fsub (fdiv vn v0) one).
Proof.
  intros Hf Hl. unfold Home.total_return.
  rewrite (iloc_last_value _ Hl), (iloc_first_value _ Hf). reflexivity.
Qed.

Lemma main_total_return_eq (pv : Series) :
  Main.total_return pv = Home.total_return pv.
Proof. reflexivity. Qed.

(** C5: on a series whose first value [f] is strictly positive, the total
    return of [Home.py] line 82, and of [main.py] line 27, is the last value
    divided by the first, minus one. *)
Theorem total_return_is_last_over_first_minus_one :
  forall (pv : Series) (d0 dn : Z) (f l : Qc),
    first_entry pv = Some (d0, Fin f) ->
    last_entry pv = Some (dn, Fin l) ->
    0 < f ->
    Home.total_return pv = Ok (Fin (l / f - 1)) /\
    Main.total_return pv = Ok (Fin (l / f - 1)).
Proof.
  intros pv d0 dn f l Hf Hl Hpos.
  assert (H : Home.total_return pv = Ok (Fin (l / f - 1))).
  { rewrite (total_return_value _ Hf Hl).
    rewrite fdiv_fin by (apply Qclt_neq_sym; exact Hpos). reflexivity. }
  split; [exact H | exact H].
Qed.

Lemma total_return_scenario :
  0 < Q2Qc 100 /\
  Home.total_return
    [(date_2023_01_01, of_int 100); (date_2024_01_01, of_int 120)]
  = Ok (of_frac 1 5).
Proof.
  split; [reflexivity|].
  destruct (@total_return_is_last_over_first_minus_one
              [(date_2023_01_01, of_int 100); (date_2024_01_01, of_int 120)]
              date_2023_01_01 date_2024_01_01 (Q2Qc 100) (Q2Qc 120)
              eq_refl eq_refl eq_refl) as [H _].
  rewrite H. unfold of_frac. qc_compute.
Defined.

(** ** Time span and CAGR *)

Lemma last_entry_in (pv : Series) e : last_entry pv = Some e -> In e pv.
Proof.
  unfold last_entry. intro H. apply in_rev.
  destruct (rev pv); simpl in H; inversion H. left. reflexivity.
Qed.

Lemma last_entry_cons (e : Z * float) (pv : Series) :
  pv <> [] -> last_entry (e :: pv) = last_entry pv.
Proof.
  unfold last_entry. simpl. intro H.
  destruct (rev pv) eqn:E; [|reflexivity].
  exfalso. apply H. rewrite <- (rev_involutive pv), E. reflexivity.
Qed.

Lemma ascending_first_last (pv : Series) d0 v0 dn vn :
  ascending pv ->
  first_entry pv = Some (d0, v0) ->
  last_entry pv = Some (dn, vn) ->
  (d0 <= dn)%Z.
Proof.
  unfold ascending, first_entry. intros Hs Hf Hl.
  destruct pv as [|e pv]; simpl in Hf; inversion Hf; subst e.
  destruct pv as [|e' pv'].
  - inversion Hl. lia.
  - rewrite last_entry_cons in Hl by discriminate.
    apply last_entry_in in Hl.
    simpl in Hs. apply StronglySorted_inv in Hs. destruct Hs as [_ Hall].
    rewrite Forall_forall in Hall.
    specialize (Hall dn (in_map fst _ _ Hl)). simpl in Hall. lia.
Qed.

Lemma Q2Qc_inject_pos (z : Z) : (0 < z)%Z -> 0 < Q2Qc (inject_Z z).
Proof.
  intro H. unfold Qclt.
  change (this (Q2Qc (inject_Z z))) with (Qred (inject_Z z)).
  change (this 0) with 0%Q.
  rewrite Qred_correct. unfold Qlt. simpl. lia.
Qed.

Lemma years_between_pos (d0 dn : Z) : (d0 < dn)%Z -> 0 < years_between d0 dn.
Proof.
  intro H. unfold years_between, Qcdiv.
  replace (/ Q2Qc (1461 # 4)) with (Q2Qc (4 # 1461))
    by (apply Qc_is_canon; reflexivity).
  rewrite <- (Qcmult_0_l (Q2Qc (4 # 1461))).
  apply Qcmult_lt_compat_r; [reflexivity|].
  apply Q2Qc_inject_pos. lia.
Qed.

Lemma years_between_same (d : Z) : years_between d d = 0.
Proof.
  unfold years_between. rewrite Z.sub_diag. apply Qc_is_canon. reflexivity.
Qed.

Lemma home_days_value (pv : Series) d0 v0 dn vn :
  first_entry pv = Some (d0, v0) ->
  last_entry pv = Some (dn, vn) ->
  Home.days pv = Ok (dn - d0)%Z.
Proof.
  intros Hf Hl. unfold Home.days.
  rewrite (iloc_first_date _ Hf), (iloc_last_date _ Hl). reflexivity.
Qed.

Lemma home_years_value (pv : Series) d0 v0 dn vn :
  first_entry pv = Some (d0, v0) ->
  last_entry pv = Some (dn, vn) ->
  Home.years pv = Ok (Fin (years_between d0 dn)).
Proof.
  intros Hf Hl. unfold Home.years.
  rewrite (home_days_value _ Hf Hl). reflexivity.
Qed.

Lemma iloc_raise {A : Type} (l : list A) (i : Z) (e : exn) :
  iloc l i = Raise e -> e = IndexError.
Proof.
  unfold iloc.
  destruct (_ && _); [destruct (nth_error _ _)|]; congruence.
Qed.

Lemma main_years_eq (pv : Series) : Main.years pv = Home.years pv.
Proof.
  unfold Main.years, Home.years, Main.days, Home.days.
  destruct (iloc (map fst pv) 0) eqn:E0, (iloc (map fst pv) (-1)) eqn:E1;
    simpl; try reflexivity.
  apply iloc_raise in E0, E1. subst. reflexivity.
Qed.

Lemma py_truediv_one_pos (y : Qc) :
  0 < y -> py_truediv one (Fin y) = Ok (Fin (1 / y)).
Proof.
  intro H. unfold py_truediv. rewrite feq_fin_zero.
  assert (N : y <> 0) by (apply Qclt_neq_sym; exact H).
  apply Qc_eqb_neq in N. rewrite N.
  rewrite one_fin, fdiv_fin by (apply Qc_eqb_neq; exact N). reflexivity.
Qed.

Lemma home_cagr_positive_span powr (pv : Series) d0 dn (f l : Qc) :
  first_entry pv = Some (d0, Fin f) ->
  last_entry pv = Some (dn, Fin l) ->
  0 < f ->
  (d0 < dn)%Z ->
  Home.cagr powr pv =
  Ok (fsub (float_pow powr (Fin (l / f)) (Fin (1 / years_between d0 dn))) one).
Proof.
  intros Hf Hl Hpos Hlt. unfold Home.cagr.
  rewrite (home_years_value _ Hf Hl). cbn [bind].
  pose proof (years_between_pos Hlt) as Hy.
  replace (fgt (Fin (years_between d0 dn)) zero) with true
    by (symmetry; apply Qc_ltb_lt; exact Hy).
  rewrite (iloc_last_value _ Hl), (iloc_first_value _ Hf). cbn [bind].
  rewrite (py_truediv_one_pos Hy). cbn [bind].
  rewrite fdiv_fin by (apply Qclt_neq_sym; exact Hpos). reflexivity.
Qed.

Lemma main_cagr_positive_span powr (pv : Series) d0 dn (f l : Qc) :
  first_entry pv = Some (d0, Fin f) ->
  last_entry pv = Some (dn, Fin l) ->
  0 < f ->
  (d0 < dn)%Z ->
  Main.cagr powr pv =
  Ok (fsub (float_pow powr (Fin (l / f)) (Fin (1 / years_between d0 dn))) one).
Proof.
  intros Hf Hl Hpos Hlt. unfold Main.cagr.
  rewrite main_years_eq, (home_years_value _ Hf Hl). cbn [bind].
  pose proof (years_between_pos Hlt) as Hy.
  unfold Main.portfolio_value.
  rewrite (iloc_last_value _ Hl), (iloc_first_value _ Hf). cbn [bind].
  rewrite (py_truediv_one_pos Hy). cbn [bind].
  rewrite fdiv_fin by (apply Qclt_neq_sym; exact Hpos). reflexivity.
Qed.

Lemma home_cagr_no_span powr (pv : Series) d v0 vn :
  first_entry pv = Some (d, v0) ->
  last_entry pv = Some (d, vn) ->
  Home.cagr powr pv = Ok zero.
Proof.
  intros Hf Hl. unfold Home.cagr.
  rewrite (home_years_value _ Hf Hl), years_between_same. reflexivity.
Qed.

(** C2: on an ascending series with a strictly positive first value [f] and
    last value [l], when the first and last dates differ the time span
    [years = days / 365.25] is strictly positive and the CAGR of [Home.py]
    lines 85-94 (and of [main.py] lines 28-30) is
    [(l / f) ** (1 / years) - 1]; when the two dates are equal [years] is
    zero and [Home.py] reports the CAGR as zero without computing the
    power. *)
Theorem cagr_is_annualised_growth :
  forall (powr : float -> float -> float) (pv : Series) (d0 dn : Z) (f l : Qc),
    ascending pv ->
    first_entry pv = Some (d0, Fin f) ->
    last_entry pv = Some (dn, Fin l) ->
    0 < f ->
    let years := years_between d0 dn in
    let growth := fsub (float_pow powr (Fin (l / f)) (Fin (1 / years))) one in
    (d0 <> dn ->
       0 < years /\
       Home.years pv = Ok (Fin years) /\
       Home.cagr powr pv = Ok growth /\
       Main.cagr powr pv = Ok growth) /\
    (d0 = dn ->
       Home.years pv = Ok zero /\
       Home.cagr powr pv = Ok zero).
Proof.
  intros powr pv d0 dn f l Hs Hf Hl Hpos years growth. split.
  - intro Hne.
    assert (Hlt : (d0 < dn)%Z).
    { pose proof (ascending_first_last Hs Hf Hl). lia. }
    split; [exact (years_between_pos Hlt)|].
    split; [exact (home_years_value _ Hf Hl)|].
    split.
    + exact (home_cagr_positive_span powr _ Hf Hl Hpos Hlt).
    + exact (main_cagr_positive_span powr _ Hf Hl Hpos Hlt).
  - intro He. subst dn. split.
    + rewrite (home_years_value _ Hf Hl), years_between_same. reflexivity.
    + exact (home_cagr_no_span powr _ Hf Hl).
Qed.

Lemma cagr_scenario :
  Home.cagr pow_stub
    [(date_2023_01_01, of_int 100); (date_2024_01_01, of_int 120)]
  = Ok (fsub (float_pow pow_stub (Fin (Q2Qc 120 / Q2Qc 100))
                (Fin (1 / years_between date_2023_01_01 date_2024_01_01)))
          one).
Proof.
  assert (A : ascending
                [(date_2023_01_01, of_int 100); (date_2024_01_01, of_int 120)]).
  { unfold ascending. simpl. repeat constructor. }
  destruct (@cagr_is_annualised_growth pow_stub
              [(date_2023_01_01, of_int 100); (date_2024_01_01, of_int 120)]
              date_2023_01_01 date_2024_01_01 (Q2Qc 100) (Q2Qc 120)
              A eq_refl eq_refl eq_refl) as [H _].
  destruct (H ltac:(discriminate)) as (_ & _ & Hc & _). exact Hc.
Defined.

(** ** The reward-to-risk ratio *)

Lemma sharpe_ratio_value (c mdd : float) :
  Home.sharpe_ratio c mdd =
  Ok (if fne mdd zero then fdiv c (fabs mdd) else zero).
Proof. unfold Home.sharpe_ratio. destruct (fne mdd zero); reflexivity. Qed.

Lemma sharpe_ratio_divisor_nonzero (mdd : float) :
  fne mdd zero = true -> feq (fabs mdd) zero = false.
Proof.
  destruct mdd as [| s | m]; simpl; try reflexivity.
  unfold fne. rewrite !feq_fin_zero. intro H.
  apply negb_true_iff, Qc_eqb_neq in H. apply Qc_eqb_neq.
  intro E. apply H. apply Qcabs_eq_0. exact E.
Qed.

Lemma compute_metrics_fields powr (pv : Series) (r : MetricsResult) :
  Home.compute_metrics powr pv = Ok r ->
  Home.total_return pv = Ok (mr_total_return r) /\
  Home.cagr powr pv = Ok (mr_cagr r) /\
  mr_drawdown r = Home.drawdown pv /\
  mr_max_drawdown r = Home.max_drawdown pv /\
  Home.sharpe_ratio (mr_cagr r) (mr_max_drawdown r) = Ok (mr_sharpe_ratio r).
Proof.
  unfold Home.compute_metrics. intro H.
  destruct (Home.total_return pv) as [tr|]; [|discriminate].
  destruct (Home.cagr powr pv) as [c|]; [|discriminate].
  cbn [bind] in H.
  destruct (Home.sharpe_ratio c (Home.max_drawdown pv)) as [sr|] eqn:E;
    [|discriminate].
  cbn [bind] in H. inversion H. subst r. simpl. auto.
Qed.

(** C8: whenever the metrics of [Home.py] are computed and [cagr] and
    [max_drawdown] are numbers [c] and [m], the ratio of lines 102-105 is
    [c / |m|] if [m] is not zero, and then the divisor [|m|] is not zero
    either, and it is zero if [m] is zero. *)
Theorem risk_ratio_is_guarded_quotient :
  forall (powr : float -> float -> float) (pv : Series) (r : MetricsResult)
         (c m : Qc),
    Home.compute_metrics powr pv = Ok r ->
    mr_cagr r = Fin c ->
    mr_max_drawdown r = Fin m ->
    (m <> 0 -> mr_sharpe_ratio r = Fin (c / Qcabs m) /\ Qcabs m <> 0) /\
    (m = 0 -> mr_sharpe_ratio r = zero).
Proof.
  intros powr pv r c m H Hc Hm.
  apply compute_metrics_fields in H. destruct H as (_ & _ & _ & _ & H).
  rewrite Hc, Hm, sharpe_ratio_value in H.
  assert (H' : mr_sharpe_ratio r =
               if fne (Fin m) zero then fdiv (Fin c) (fabs (Fin m)) else zero)
    by congruence.
  rewrite H'. clear H H'.
  unfold fne. rewrite feq_fin_zero. split.
  - intro N.
    assert (A : Qcabs m <> 0) by (intro E; apply N, Qcabs_eq_0, E).
    apply Qc_eqb_neq in N. rewrite N. cbn [negb fabs].
    rewrite fdiv_fin by exact A. auto.
  - intro E. subst m. reflexivity.
Qed.

Lemma risk_ratio_scenario :
  exists r,
    Home.compute_metrics pow_stub
      [(date_2023_01_01, of_int 100); (date_2023_07_01, of_int 80);
       (date_2024_01_01, of_int 100)] = Ok r /\
    mr_cagr r = Fin 0 /\
    mr_max_drawdown r = Fin (Q2Qc (-1 # 5)) /\
    mr_sharpe_ratio r = Fin (0 / Qcabs (Q2Qc (-1 # 5))).
Proof.
  destruct (Home.compute_metrics pow_stub
      [(date_2023_01_01, of_int 100); (date_2023_07_01, of_int 80);
       (date_2024_01_01, of_int 100)]) as [r|] eqn:E;
    [|vm_compute in E; discriminate].
  assert (Hc : mr_cagr r = Fin 0).
  { vm_compute in E. inversion E. simpl. qc_compute. }
  assert (Hm : mr_max_drawdown r = Fin (Q2Qc (-1 # 5))).
  { vm_compute in E. inversion E. simpl. qc_compute. }
  exists r. split; [reflexivity|]. split; [exact Hc|]. split; [exact Hm|].
  destruct (@risk_ratio_is_guarded_quotient pow_stub _ r 0 (Q2Qc (-1 # 5))
              E Hc Hm) as [H _].
  destruct (H ltac:(discriminate)) as [Hs _]. exact Hs.
Defined.

(** ** Outcomes of the whole computation *)

Lemma nonempty_first_entry (pv : Series) :
  pv <> [] -> exists e, first_entry pv = Some e.
Proof. destruct pv as [|e pv]; [congruence|]. exists e. reflexivity. Qed.

Lemma nonempty_last_entry (pv : Series) :
  pv <> [] -> exists e, last_entry pv = Some e.
Proof.
  unfold last_entry. intro H. destruct (rev pv) as [|e r] eqn:E.
  - exfalso. apply H. rewrite <- (rev_involutive pv), E. reflexivity.
  - exists e. reflexivity.
Qed.

Lemma home_cagr_returns powr (pv : Series) d0 v0 dn vn :
  first_entry pv = Some (d0, v0) ->
  last_entry pv = Some (dn, vn) ->
  exists c, Home.cagr powr pv = Ok c.
Proof.
  intros Hf Hl. unfold Home.cagr.
  rewrite (home_years_value _ Hf Hl). cbn [bind].
  destruct (fgt (Fin (years_between d0 dn)) zero) eqn:G.
  - rewrite (iloc_last_value _ Hl), (iloc_first_value _ Hf). cbn [bind].
    apply Qc_ltb_lt in G. rewrite (py_truediv_one_pos G). cbn [bind].
    eexists. reflexivity.
  - eexists. reflexivity.
Qed.

Lemma compute_metrics_returns powr (pv : Series) d0 v0 dn vn :
  first_entry pv = Some (d0, v0) ->
  last_entry pv = Some (dn, vn) ->
  exists r,
    Home.compute_metrics powr pv = Ok r /\
    mr_total_return r = fsub (fdiv vn v0) one.
Proof.
  intros Hf Hl. unfold Home.compute_metrics.
  rewrite (total_return_value _ Hf Hl). cbn [bind].
  destruct (home_cagr_returns powr _ Hf Hl) as [c Hc]. rewrite Hc. cbn [bind].
  rewrite sharpe_ratio_value. cbn [bind].
  eexists. split; reflexivity.
Qed.

(** C1, as the code has it: the metrics section of [Home.py] fails only on
    a series without entries, with an index error, and returns a complete
    result on every other series; no baseline is checked, and a zero first
    value with a positive last value gives an infinite total return. *)
Theorem compute_metrics_fails_only_on_empty_series :
  forall (powr : float -> float -> float) (pv : Series),
    (pv = [] -> Home.compute_metrics powr pv = Raise IndexError) /\
    (pv <> [] -> exists r, Home.compute_metrics powr pv = Ok r) /\
    (forall d0 dn l,
        first_entry pv = Some (d0, zero) ->
        last_entry pv = Some (dn, Fin l) ->
        0 < l ->
        exists r,
          Home.compute_metrics powr pv = Ok r /\
          mr_total_return r = Inf false).
Proof.
  intros powr pv. split; [|split].
  - intro E. subst pv. reflexivity.
  - intro N.
    destruct (nonempty_first_entry N) as [[d0 v0] Hf].
    destruct (nonempty_last_entry N) as [[dn vn] Hl].
    destruct (compute_metrics_returns powr _ Hf Hl) as (r & Hr & _).
    exists r. exact Hr.
  - intros d0 dn l Hf Hl Hpos.
    destruct (compute_metrics_returns powr _ Hf Hl) as (r & Hr & Ht).
    exists r. split; [exact Hr|].
    rewrite Ht, (fdiv_zero_pos Hpos). reflexivity.
Qed.

(** C1 as stated fails: the first value is zero, nothing is raised and the
    total return is an infinity. *)
Lemma zero_baseline_is_not_rejected :
  first_entry [(date_2023_01_01, of_int 0); (date_2024_01_01, of_int 100)]
  = Some (date_2023_01_01, zero) /\
  forall powr, exists r,
    Home.compute_metrics powr
      [(date_2023_01_01, of_int 0); (date_2024_01_01, of_int 100)] = Ok r /\
    mr_total_return r = Inf false /\
    mr_drawdown r = [NaN; zero].
Proof.
  split; [reflexivity|]. intro powr.
  eexists. split; [vm_compute; reflexivity|].
  split; [reflexivity|].
  simpl. apply f_equal. apply f_equal2; [|reflexivity]. unfold zero, of_int.
  qc_compute.
Qed.

(** ** A series with a single entry *)

Lemma Qc_div_same_minus_one (q : Qc) : q <> 0 -> q / q - 1 = 0.
Proof. intro H. field. exact H. Qed.

Lemma Qc_sub_same_div (q : Qc) : q <> 0 -> (q - q) / q = 0.
Proof. intro H. field. exact H. Qed.

(** C9, as the code has it: on a series with one entry of strictly positive
    value the metrics of [Home.py] are computed without an error, the total
    return is zero, the drawdown series is [[0]], and the CAGR and the ratio
    are the plain number zero set by the [else] branches of lines 94 and
    105; the result carries nothing that marks them as undefined. *)
Theorem single_entry_metrics :
  forall (powr : float -> float -> float) (d : Z) (q : Qc),
    0 < q ->
    Home.compute_metrics powr [(d, Fin q)] =
    Ok {| mr_total_return := zero;
          mr_cagr := zero;
          mr_drawdown := [zero];
          mr_max_drawdown := zero;
          mr_sharpe_ratio := zero |}.
Proof.
  intros powr d q Hpos.
  assert (N : q <> 0) by (apply Qclt_neq_sym; exact Hpos).
  unfold Home.compute_metrics.
  rewrite (@total_return_value [(d, Fin q)] d (Fin q) d (Fin q) eq_refl eq_refl).
  rewrite (@home_cagr_no_span powr [(d, Fin q)] d (Fin q) (Fin q) eq_refl eq_refl).
  cbn [bind].
  assert (D : Home.drawdown [(d, Fin q)] = [zero]).
  { unfold Home.drawdown, Home.running_max, cummax, zip_with.
    cbn [map snd fst combine cummax_from is_nan].
    rewrite fsub_fin, fdiv_fin by exact N.
    rewrite (Qc_sub_same_div N). reflexivity. }
  unfold Home.max_drawdown. rewrite D.
  rewrite fdiv_fin by exact N. rewrite one_fin, fsub_fin.
  rewrite (Qc_div_same_minus_one N). reflexivity.
Qed.

Lemma single_entry_scenario :
  Home.compute_metrics pow_stub [(date_2023_01_01, of_int 100)] =
  Ok {| mr_total_return := zero;
        mr_cagr := zero;
        mr_drawdown := [zero];
        mr_max_drawdown := zero;
        mr_sharpe_ratio := zero |}.
Proof.
  apply (@single_entry_metrics pow_stub date_2023_01_01 (Q2Qc 100)).
  reflexivity.
Defined.

(** C9 as stated fails: the CAGR and the ratio reported for a single entry
    are the very values reported for a series that returns to its first
    value after a year, a true zero return. *)
Lemma single_entry_is_reported_as_true_zero :
  exists r1 r2,
    (forall powr,
        Home.compute_metrics powr [(date_2023_01_01, of_int 100)] = Ok r1) /\
    (forall powr,
        Home.compute_metrics powr
          [(date_2023_01_01, of_int 100); (date_2023_07_01, of_int 80);
           (date_2024_01_01, of_int 100)] = Ok r2) /\
    mr_cagr r1 = mr_cagr r2 /\
    mr_sharpe_ratio r1 = mr_sharpe_ratio r2.
Proof.
  eexists. eexists.
  split; [intro powr; vm_compute; reflexivity|].
  split; [intro powr; vm_compute; reflexivity|].
  split; reflexivity.
Qed.

(** ** Running maximum and drawdown *)

Lemma Qc_max_l (a b : Qc) : a <= Qc_max a b.
Proof.
  unfold Qc_max. destruct (Qc_ltb a b) eqn:E.
  - apply Qclt_le_weak, Qc_ltb_lt, E.
  - apply Qcle_refl.
Qed.

Lemma Qc_max_r (a b : Qc) : b <= Qc_max a b.
Proof.
  unfold Qc_max. destruct (Qc_ltb a b) eqn:E.
  - apply Qcle_refl.
  - apply Qc_ltb_ge, E.
Qed.

Lemma Qc_max_cases (a b : Qc) : Qc_max a b = a \/ Qc_max a b = b.
Proof. unfold Qc_max. destruct (Qc_ltb a b); auto. Qed.

Lemma Qc_min_l (a b : Qc) : Qc_min a b <= a.
Proof.
  unfold Qc_min. destruct (Qc_ltb b a) eqn:E.
  - apply Qclt_le_weak, Qc_ltb_lt, E.
  - apply Qcle_refl.
Qed.

Lemma Qc_min_r (a b : Qc) : Qc_min a b <= b.
Proof.
  unfold Qc_min. destruct (Qc_ltb b a) eqn:E.
  - apply Qcle_refl.
  - apply Qc_ltb_ge, E.
Qed.

Lemma Qc_min_cases (a b : Qc) : Qc_min a b = a \/ Qc_min a b = b.
Proof. unfold Qc_min. destruct (Qc_ltb b a); auto. Qed.

Lemma fold_max_ge_init (l : list Qc) (a : Qc) : a <= fold_left Qc_max l a.
Proof.
  revert a. induction l as [|x l IH]; intro a; simpl.
  - apply Qcle_refl.
  - eapply Qcle_trans; [apply (Qc_max_l a x) | apply IH].
Qed.

Lemma fold_max_ge_elem (l : list Qc) (a x : Qc) :
  In x l -> x <= fold_left Qc_max l a.
Proof.
  revert a. induction l as [|y l IH]; intros a H; simpl in *; [contradiction|].
  destruct H as [H|H].
  - subst y. eapply Qcle_trans; [apply (Qc_max_r a x) | apply fold_max_ge_init].
  - apply IH, H.
Qed.

Lemma fold_max_in (l : list Qc) (a : Qc) : In (fold_left Qc_max l a) (a :: l).
Proof.
  revert a. induction l as [|y l IH]; intro a; simpl; [auto|].
  destruct (IH (Qc_max a y)) as [H|H].
  - rewrite <- H. destruct (Qc_max_cases a y) as [E|E]; rewrite E; auto.
  - auto.
Qed.

Lemma fold_min_le_init (l : list Qc) (a : Qc) : fold_left Qc_min l a <= a.
Proof.
  revert a. induction l as [|x l IH]; intro a; simpl.
  - apply Qcle_refl.
  - eapply Qcle_trans; [apply IH | apply Qc_min_l].
Qed.

Lemma fold_min_le_elem (l : list Qc) (a x : Qc) :
  In x l -> fold_left Qc_min l a <= x.
Proof.
  revert a. induction l as [|y l IH]; intros a H; simpl in *; [contradiction|].
  destruct H as [H|H].
  - subst y. eapply Qcle_trans; [apply fold_min_le_init | apply Qc_min_r].
  - apply IH, H.
Qed.

Lemma fold_min_in (l : list Qc) (a : Qc) : In (fold_left Qc_min l a) (a :: l).
Proof.
  revert a. induction l as [|y l IH]; intro a; simpl; [auto|].
  destruct (IH (Qc_min a y)) as [H|H].
  - rewrite <- H. destruct (Qc_min_cases a y) as [E|E]; rewrite E; auto.
  - auto.
Qed.

Lemma fmax_fin (a b : Qc) : fmax (Fin a) (Fin b) = Fin (Qc_max a b).
Proof. unfold fmax, Qc_max. simpl. destruct (Qc_ltb a b); reflexivity. Qed.

Lemma fmin_fin (a b : Qc) : fmin (Fin a) (Fin b) = Fin (Qc_min a b).
Proof. unfold fmin, Qc_min. simpl. destruct (Qc_ltb b a); reflexivity. Qed.

Lemma fold_fmin_fin (l : list Qc) (a : Qc) :
  fold_left fmin (map Fin l) (Fin a) = Fin (fold_left Qc_min l a).
Proof.
  revert a. induction l as [|x l IH]; intro a; simpl; [reflexivity|].
  rewrite fmin_fin. apply IH.
Qed.

Lemma series_min_fin (d : Qc) (ds : list Qc) :
  series_min (map Fin (d :: ds)) = Fin (fold_left Qc_min ds d).
Proof.
  unfold series_min. simpl.
  replace (filter (fun v => negb (is_nan v)) (map Fin ds)) with (map Fin ds).
  - apply fold_fmin_fin.
  - induction ds as [|x ds IH]; simpl; [reflexivity|]. rewrite <- IH. reflexivity.
Qed.

Lemma cummax_from_fin (qs : list Qc) (a : Qc) (i : nat) (q : Qc) :
  nth_error qs i = Some q ->
  nth_error (cummax_from (Some (Fin a)) (map Fin qs)) i =
  Some (Fin (fold_left Qc_max (firstn (S i) qs) a)).
Proof.
  revert a i. induction qs as [|x qs IH]; intros a i H.
  - destruct i; discriminate.
  - cbn [map cummax_from is_nan]. rewrite fmax_fin.
    destruct i as [|i].
    + reflexivity.
    + simpl in H. cbn [nth_error]. rewrite (IH _ _ H). reflexivity.
Qed.

Lemma cummax_fin (qs : list Qc) (i : nat) (q : Qc) :
  nth_error qs i = Some q ->
  nth_error (cummax (map Fin qs)) i = Some (Fin (running_peak qs i)).
Proof.
  unfold cummax, running_peak. destruct qs as [|x qs]; intro H.
  - destruct i; discriminate.
  - cbn [map cummax_from is_nan firstn]. destruct i as [|i].
    + reflexivity.
    + simpl in H. cbn [nth_error]. rewrite (cummax_from_fin _ x _ H).
      reflexivity.
Qed.

Lemma nth_error_zip_with {A B C : Type} (f : A -> B -> C) l l' i a b :
  nth_error l i = Some a ->
  nth_error l' i = Some b ->
  nth_error (zip_with f l l') i = Some (f a b).
Proof.
  unfold zip_with. revert l' i. induction l as [|x l IH]; intros l' i Ha Hb.
  - destruct i; discriminate.
  - destruct l' as [|y l']; [destruct i; discriminate|].
    destruct i as [|i]; simpl in *.
    + inversion Ha. inversion Hb. reflexivity.
    + apply IH; assumption.
Qed.

Lemma length_cummax_from acc vs : length (cummax_from acc vs) = length vs.
Proof.
  revert acc. induction vs as [|v vs IH]; intro acc; simpl; [reflexivity|].
  destruct (is_nan v); simpl; rewrite IH; reflexivity.
Qed.

Lemma length_zip_with_same {A B C : Type} (f : A -> B -> C) l l' :
  length l' = length l -> length (zip_with f l l') = length l.
Proof.
  intro H. unfold zip_with. rewrite length_map, length_combine, H.
  apply Nat.min_id.
Qed.

Lemma home_drawdown_length (pv : Series) :
  length (Home.drawdown pv) = length pv.
Proof.
  unfold Home.drawdown, Home.running_max, cummax.
  rewrite length_zip_with_same by apply length_cummax_from.
  apply length_map.
Qed.

Lemma nth_error_in_firstn {A : Type} (l : list A) (j n : nat) (x : A) :
  (j < n)%nat -> nth_error l j = Some x -> In x (firstn n l).
Proof.
  revert j n. induction l as [|y l IH]; intros j n Hj H.
  - destruct j; discriminate.
  - destruct n as [|n]; [lia|]. destruct j as [|j]; simpl in *.
    + inversion H. auto.
    + right. apply (IH j); [lia | exact H].
Qed.

Lemma in_firstn_nth_error {A : Type} (l : list A) (n : nat) (x : A) :
  In x (firstn n l) -> exists j, (j < n)%nat /\ nth_error l j = Some x.
Proof.
  revert n. induction l as [|y l IH]; intros n H.
  - rewrite firstn_nil in H. contradiction.
  - destruct n as [|n]; [contradiction|]. simpl in H. destruct H as [H|H].
    + exists 0%nat. subst. split; [lia | reflexivity].
    + destruct (IH _ H) as (j & Hj & E). exists (S j). split; [lia | exact E].
Qed.

Lemma running_peak_in (qs : list Qc) (i : nat) (q : Qc) :
  nth_error qs i = Some q -> In (running_peak qs i) (firstn (S i) qs).
Proof.
  unfold running_peak. intro H. destruct qs as [|x qs].
  - destruct i; discriminate.
  - cbn [firstn]. apply fold_max_in.
Qed.

Lemma running_peak_ge (qs : list Qc) (i j : nat) (q' : Qc) :
  (j <= i)%nat -> nth_error qs j = Some q' -> q' <= running_peak qs i.
Proof.
  intros Hj H.
  assert (I : In q' (firstn (S i) qs))
    by (apply (nth_error_in_firstn _ (j := j)); [lia | exact H]).
  unfold running_peak. destruct qs as [|x qs].
  - destruct j; discriminate.
  - cbn [firstn] in *. destruct I as [I|I].
    + subst. apply fold_max_ge_init.
    + apply fold_max_ge_elem, I.
Qed.

Lemma running_peak_pos (qs : list Qc) (i : nat) (q : Qc) :
  Forall (fun x => 0 < x) qs ->
  nth_error qs i = Some q ->
  0 < running_peak qs i.
Proof.
  intros Hall H. rewrite Forall_forall in Hall. apply Hall.
  destruct (in_firstn_nth_error _ _ _ (running_peak_in _ _ H)) as (j & _ & E).
  eapply nth_error_In, E.
Qed.

Lemma drawdown_formula (v m : Qc) : m <> 0 -> (v - m) / m = v / m - 1.
Proof. intro H. field. exact H. Qed.

Lemma drawdown_nonpos (v m : Qc) : 0 < m -> v <= m -> v / m - 1 <= 0.
Proof.
  intros Hm Hv. apply Qcle_minus_iff.
  replace (0 + - (v / m - 1)) with ((m - v) / m)
    by (field; apply Qclt_neq_sym; exact Hm).
  apply Qcle_minus_iff in Hv.
  apply (Qcmult_lt_0_le_reg_r _ _ m Hm).
  rewrite Qcmult_0_l.
  replace ((m - v) / m * m) with (m + - v)
    by (field; apply Qclt_neq_sym; exact Hm).
  exact Hv.
Qed.

Lemma drawdown_zero_iff (v m : Qc) : m <> 0 -> (v / m - 1 = 0 <-> v = m).
Proof.
  intro Hm. split; intro H.
  - replace v with ((v / m - 1) * m + m) by (field; exact Hm).
    rewrite H. ring.
  - subst v. field. exact Hm.
Qed.

Lemma nth_error_fin (pv : Series) (qs : list Qc) (i : nat) (q : Qc) :
  map snd pv = map Fin qs ->
  nth_error qs i = Some q ->
  nth_error (map snd pv) i = Some (Fin q).
Proof. intros Hv H. rewrite Hv. apply map_nth_error, H. Qed.

Lemma home_drawdown_nth (pv : Series) (qs : list Qc) (i : nat) (q : Qc) :
  map snd pv = map Fin qs ->
  Forall (fun x => 0 < x) qs ->
  nth_error qs i = Some q ->
  nth_error (Home.drawdown pv) i = Some (Fin (q / running_peak qs i - 1)).
Proof.
  intros Hv Hpos H. unfold Home.drawdown, Home.running_max.
  assert (N : running_peak qs i <> 0)
    by (apply Qclt_neq_sym, (@running_peak_pos qs i q Hpos H)).
  pose proof (@nth_error_fin pv qs i q Hv H) as Ev.
  pose proof (@cummax_fin qs i q H) as Em. rewrite <- Hv in Em.
  erewrite nth_error_zip_with by eassumption.
  rewrite fsub_fin, fdiv_fin by exact N.
  rewrite (drawdown_formula _ N). reflexivity.
Qed.

Lemma chart_drawdown_nth (pv : Series) (qs : list Qc) (i : nat) (q : Qc) :
  map snd pv = map Fin qs ->
  Forall (fun x => 0 < x) qs ->
  nth_error qs i = Some q ->
  nth_error (Main.chart_drawdown pv) i = Some (Fin (q / running_peak qs i - 1)).
Proof.
  intros Hv Hpos H. unfold Main.chart_drawdown.
  assert (N : running_peak qs i <> 0)
    by (apply Qclt_neq_sym, (@running_peak_pos qs i q Hpos H)).
  pose proof (@nth_error_fin pv qs i q Hv H) as Ev.
  pose proof (@cummax_fin qs i q H) as Em. rewrite <- Hv in Em.
  erewrite nth_error_zip_with by eassumption.
  rewrite fdiv_fin by exact N. reflexivity.
Qed.

Lemma at_peak_iff (qs : list Qc) (i : nat) (q : Qc) :
  nth_error qs i = Some q ->
  (q = running_peak qs i <->
   forall j q', (j <= i)%nat -> nth_error qs j = Some q' -> q' <= q).
Proof.
  intro H. split.
  - intros E j q' Hj Hq. rewrite E. exact (@running_peak_ge qs i j q' Hj Hq).
  - intro Hall. apply Qcle_antisym.
    + exact (@running_peak_ge qs i i q (Nat.le_refl i) H).
    + destruct (in_firstn_nth_error _ _ _ (@running_peak_in qs i q H))
        as (j & Hj & E).
      apply (Hall j); [lia | exact E].
Qed.

(** On a value column of doubles, with strictly positive values [qs]: the
    drawdown of [Home.py] lines 97-98, and the one [main.py] lines 122-123
    plots, has one entry per entry of the series; the entry at index [i]
    is the value at [i] divided by the running maximum of the values up to
    [i], minus one; it is never positive; and it is zero exactly when no
    value up to [i] exceeds the value at [i]. *)
Lemma drawdown_of_doubles_is_decline_from_running_peak :
  forall (pv : Series) (qs : list Qc),
    map snd pv = map Fin qs ->
    Forall (fun x => 0 < x) qs ->
    length (Home.drawdown pv) = length pv /\
    forall (i : nat) (q : Qc),
      nth_error qs i = Some q ->
      let peak := running_peak qs i in
      let dd := q / peak - 1 in
      nth_error (Home.drawdown pv) i = Some (Fin dd) /\
      nth_error (Main.chart_drawdown pv) i = Some (Fin dd) /\
      dd <= 0 /\
      (dd = 0 <-> q = peak) /\
      (q = peak <->
       forall j q', (j <= i)%nat -> nth_error qs j = Some q' -> q' <= q).
Proof.
  intros pv qs Hv Hpos. split; [apply home_drawdown_length|].
  intros i q H peak dd.
  pose proof (@running_peak_pos qs i q Hpos H) as Pp.
  split; [exact (@home_drawdown_nth pv qs i q Hv Hpos H)|].
  split; [exact (@chart_drawdown_nth pv qs i q Hv Hpos H)|].
  split.
  { apply (drawdown_nonpos Pp).
    exact (@running_peak_ge qs i i q (Nat.le_refl i) H). }
  split; [apply drawdown_zero_iff, Qclt_neq_sym, Pp|].
  exact (@at_peak_iff qs i q H).
Qed.

(** C3 on a value column typed [uint64], with the strictly positive
    values [2^63] and [1]: line 98 of [Home.py] subtracts the running
    maximum on [uint64], the difference of the second row wraps around to
    [2^63 + 1], and the drawdown of that row is above zero, where the claim
    has [1 / 2^63 - 1]; [main.py] lines 122-123, which divide first, give
    that number, below zero. *)
Theorem uint64_drawdown_wraps_above_zero :
  Home.drawdown_uint64 [2 ^ 63; 1]%Z
  = [zero; Fin (Q2Qc ((2 ^ 63 + 1) # 2 ^ 63))] /\
  0 < Q2Qc ((2 ^ 63 + 1) # 2 ^ 63) /\
  Main.chart_drawdown
    [(date_2023_01_01, of_int (2 ^ 63)); (date_2024_01_01, of_int 1)]
  = [zero; Fin (Q2Qc 1 / Q2Qc (inject_Z (2 ^ 63)) - 1)] /\
  Q2Qc 1 / Q2Qc (inject_Z (2 ^ 63)) - 1 < 0.
Proof.
  split; [|split; [|split]].
  - unfold Home.drawdown_uint64, zip_with, cummax_int, uint64_sub.
    cbn [cummax_int_from combine map fst snd].
    apply f_equal2; [|apply f_equal2; [|reflexivity]];
      vm_compute; qc_compute.
  - reflexivity.
  - unfold Main.chart_drawdown, zip_with, cummax.
    cbn [cummax_from combine map fst snd is_nan of_int].
    apply f_equal2; [|apply f_equal2; [|reflexivity]];
      vm_compute; qc_compute.
  - reflexivity.
Qed.

(** ** Maximum drawdown *)

Lemma all_fin_list (l : list float) :
  (forall i, (i < length l)%nat -> exists q, nth_error l i = Some (Fin q)) ->
  exists ds, l = map Fin ds.
Proof.
  induction l as [|x l IH]; intro H.
  - exists []. reflexivity.
  - destruct (H 0%nat ltac:(simpl; lia)) as [q Hq]. simpl in Hq.
    inversion Hq. subst x.
    destruct IH as [ds Hds].
    + intros i Hi. apply (H (S i)). simpl. lia.
    + exists (q :: ds). rewrite Hds. reflexivity.
Qed.

Lemma home_drawdown_fin (pv : Series) (qs : list Qc) :
  map snd pv = map Fin qs ->
  Forall (fun x => 0 < x) qs ->
  exists ds,
    Home.drawdown pv = map Fin ds /\
    length ds = length qs /\
    forall i q, nth_error qs i = Some q ->
                nth_error ds i = Some (q / running_peak qs i - 1).
Proof.
  intros Hv Hpos.
  assert (L : length (Home.drawdown pv) = length qs).
  { rewrite home_drawdown_length, <- (length_map snd), Hv. apply length_map. }
  destruct (all_fin_list (Home.drawdown pv)) as [ds Hds].
  - intros i Hi. rewrite L in Hi.
    destruct (nth_error qs i) as [q|] eqn:E.
    + eexists. exact (@home_drawdown_nth pv qs i q Hv Hpos E).
    + apply nth_error_None in E. lia.
  - exists ds. split; [exact Hds|]. split.
    + rewrite <- L, Hds. symmetry. apply length_map.
    + intros i q H. pose proof (@home_drawdown_nth pv qs i q Hv Hpos H) as D.
      rewrite Hds, nth_error_map in D.
      destruct (nth_error ds i); simpl in D; inversion D. reflexivity.
Qed.

Lemma fin_in_map (x : Qc) (ds : list Qc) : In (Fin x) (map Fin ds) -> In x ds.
Proof.
  intro H. apply in_map_iff in H. destruct H as (y & E & I).
  inversion E. subst. exact I.
Qed.

Lemma running_peak_single (q : Qc) (i : nat) (x : Qc) :
  nth_error [q] i = Some x -> running_peak [q] i = x.
Proof.
  destruct i as [|i]; simpl.
  - intro H. inversion H. reflexivity.
  - destruct i; discriminate.
Qed.

(** C4: on a non-empty series of strictly positive values, the
    [max_drawdown] of [Home.py] line 99 (the same computation as [main.py]
    line 34) is an entry of the drawdown series below or equal to every
    entry; it is zero when no value lies below the running maximum, and so
    for a series with one entry. *)
Theorem max_drawdown_is_minimum_of_drawdown :
  forall (pv : Series) (qs : list Qc),
    map snd pv = map Fin qs ->
    Forall (fun x => 0 < x) qs ->
    qs <> [] ->
    exists m,
      Home.max_drawdown pv = Fin m /\
      Main.max_drawdown pv = Fin m /\
      In (Fin m) (Home.drawdown pv) /\
      (forall x, In (Fin x) (Home.drawdown pv) -> m <= x) /\
      ((forall i q, nth_error qs i = Some q -> running_peak qs i <= q) ->
       m = 0) /\
      (length pv = 1%nat -> m = 0).
Proof.
  intros pv qs Hv Hpos Hne.
  destruct (@home_drawdown_fin pv qs Hv Hpos) as (ds & Hds & Hlen & Hnth).
  destruct ds as [|d ds].
  { destruct qs; [congruence | discriminate]. }
  exists (fold_left Qc_min ds d).
  assert (M : Home.max_drawdown pv = Fin (fold_left Qc_min ds d)).
  { unfold Home.max_drawdown. rewrite Hds. apply series_min_fin. }
  assert (Flat : (forall i q, nth_error qs i = Some q ->
                              running_peak qs i <= q) ->
                 fold_left Qc_min ds d = 0).
  { intro Hflat.
    destruct (In_nth_error _ _ (fold_min_in ds d)) as [i Hi].
    destruct (nth_error qs i) as [q|] eqn:E.
    - assert (Hm : fold_left Qc_min ds d = q / running_peak qs i - 1)
        by (rewrite (Hnth _ _ E) in Hi; congruence).
      rewrite Hm.
      apply drawdown_zero_iff.
      + apply Qclt_neq_sym, (@running_peak_pos qs i q Hpos E).
      + apply Qcle_antisym;
          [exact (@running_peak_ge qs i i q (Nat.le_refl i) E)
          | exact (Hflat _ _ E)].
    - apply nth_error_None in E.
      assert (nth_error (d :: ds) i <> None) by congruence.
      apply nth_error_Some in H. lia. }
  split; [exact M|]. split; [exact M|]. split; [|split; [|split]].
  - rewrite Hds. apply in_map, fold_min_in.
  - intros x Hx. rewrite Hds in Hx. apply fin_in_map in Hx.
    destruct Hx as [Hx|Hx].
    + subst. apply fold_min_le_init.
    + apply fold_min_le_elem, Hx.
  - exact Flat.
  - intro L1. apply Flat. intros i q H.
    assert (Lq : length qs = 1%nat).
    { rewrite <- L1, <- (length_map snd pv), Hv. symmetry. apply length_map. }
    destruct qs as [|q0 [|q1 qs]]; try discriminate.
    rewrite (@running_peak_single q0 i q H). apply Qcle_refl.
Qed.

Lemma max_drawdown_scenario :
  exists m,
    Home.max_drawdown
      [(date_2023_01_01, of_int 100); (date_2023_07_01, of_int 80);
       (date_2024_01_01, of_int 120)] = Fin m /\
    In (Fin m)
       (Home.drawdown
          [(date_2023_01_01, of_int 100); (date_2023_07_01, of_int 80);
           (date_2024_01_01, of_int 120)]) /\
    m = Q2Qc (-1 # 5).
Proof.
  assert (P : Forall (fun x => 0 < x) [Q2Qc 100; Q2Qc 80; Q2Qc 120])
    by (repeat constructor).
  destruct (@max_drawdown_is_minimum_of_drawdown
              [(date_2023_01_01, of_int 100); (date_2023_07_01, of_int 80);
               (date_2024_01_01, of_int 120)]
              [Q2Qc 100; Q2Qc 80; Q2Qc 120] eq_refl P ltac:(discriminate))
    as (m & Hm & _ & Hin & _).
  exists m. split; [exact Hm|]. split; [exact Hin|].
  assert (E : Fin m = Fin (Q2Qc (-1 # 5))).
  { rewrite <- Hm. vm_compute. qc_compute. }
  inversion E. reflexivity.
Defined.

(** ** Sorting and grouping by date *)

Lemma insert_key_in (d x : Z) (ks : list Z) :
  In x (insert_key d ks) <-> x = d \/ In x ks.
Proof.
  induction ks as [|k ks IH]; simpl.
  - intuition.
  - destruct (Z.compare_spec d k) as [E|L|G]; simpl.
    + subst. intuition.
    + intuition.
    + rewrite IH. intuition.
Qed.

Lemma insert_key_sorted (d : Z) (ks : list Z) :
  StronglySorted Z.lt ks -> StronglySorted Z.lt (insert_key d ks).
Proof.
  induction ks as [|k ks IH]; intro H; simpl.
  - repeat constructor.
  - destruct (Z.compare_spec d k) as [E|L|G].
    + exact H.
    + constructor; [exact H|].
      apply StronglySorted_inv in H. destruct H as [_ H].
      constructor; [exact L|].
      rewrite Forall_forall in *. intros x Hx. specialize (H x Hx). lia.
    + apply StronglySorted_inv in H. destruct H as [Hs Hall].
      constructor; [apply IH, Hs|].
      rewrite Forall_forall in *. intros x Hx.
      apply insert_key_in in Hx. destruct Hx as [Hx|Hx];
        [subst; exact G | apply Hall, Hx].
Qed.

Lemma group_keys_in {A : Type} (df : DataFrame A) (d : Z) :
  In d (group_keys df) <-> In d (map fst df).
Proof.
  unfold group_keys. induction (map fst df) as [|k ks IH]; simpl.
  - reflexivity.
  - rewrite insert_key_in, IH. intuition.
Qed.

Lemma group_keys_sorted {A : Type} (df : DataFrame A) :
  StronglySorted Z.lt (group_keys df).
Proof.
  unfold group_keys. induction (map fst df) as [|k ks IH]; simpl.
  - constructor.
  - apply insert_key_sorted, IH.
Qed.

Lemma groupby_last_dates (df : DataFrame float) :
  map fst (groupby_last df) = group_keys df.
Proof.
  unfold groupby_last. rewrite map_map. simpl. apply map_id.
Qed.

Lemma groupby_last_in (df : DataFrame float) (d : Z) (v : float) :
  In (d, v) (groupby_last df) <->
  In d (map fst df) /\ v = last_valid (get_group d df).
Proof.
  unfold groupby_last. rewrite in_map_iff, <- group_keys_in. split.
  - intros (k & E & I). inversion E. subst. auto.
  - intros [I E]. exists d. subst. auto.
Qed.

Lemma sort_values_sorted {A : Type} (df : DataFrame A) :
  StronglySorted Z.lt (map fst df) -> sort_values df = df.
Proof.
  unfold sort_values. induction df as [|r df IH]; intro H; simpl.
  - reflexivity.
  - simpl in H. apply StronglySorted_inv in H. destruct H as [Hs Hall].
    rewrite (IH Hs). destruct df as [|r' df']; simpl; [reflexivity|].
    apply Forall_inv in Hall. simpl in Hall.
    replace (fst r <=? fst r')%Z with true
      by (symmetry; apply Z.leb_le; lia).
    reflexivity.
Qed.

Lemma filter_insert_by_date {A : Type} (d : Z) (r : Z * A) (df : DataFrame A) :
  filter (fun x => (fst x =? d)%Z) (insert_by_date r df) =
  if (fst r =? d)%Z
  then r :: filter (fun x => (fst x =? d)%Z) df
  else filter (fun x => (fst x =? d)%Z) df.
Proof.
  induction df as [|y df IH]; simpl.
  - reflexivity.
  - destruct (fst r <=? fst y)%Z eqn:L; simpl.
    + reflexivity.
    + rewrite IH. apply Z.leb_gt in L.
      destruct (fst r =? d)%Z eqn:E; [|reflexivity].
      apply Z.eqb_eq in E.
      replace (fst y =? d)%Z with false
        by (symmetry; apply Z.eqb_neq; lia).
      reflexivity.
Qed.

(** The insertion sort keeps the rows of each date in their order. *)
Lemma get_group_sort_values {A : Type} (d : Z) (df : DataFrame A) :
  get_group d (sort_values df) = get_group d df.
Proof.
  unfold get_group, sort_values. apply f_equal.
  induction df as [|r df IH]; simpl; [reflexivity|].
  rewrite filter_insert_by_date, IH. reflexivity.
Qed.

Lemma get_group_to_numeric (d : Z) (df : DataFrame cell) :
  get_group d (to_numeric df) = map coerce (get_group d df).
Proof.
  unfold get_group, to_numeric. induction df as [|r df IH]; simpl.
  - reflexivity.
  - destruct (fst r =? d)%Z; simpl; rewrite IH; reflexivity.
Qed.

Lemma insert_by_date_in {A : Type} (r x : Z * A) (df : DataFrame A) :
  In x (insert_by_date r df) <-> x = r \/ In x df.
Proof.
  induction df as [|y df IH]; simpl.
  - intuition.
  - destruct (fst r <=? fst y)%Z; simpl; [|rewrite IH]; intuition.
Qed.

Lemma sort_values_in {A : Type} (x : Z * A) (df : DataFrame A) :
  In x (sort_values df) <-> In x df.
Proof.
  unfold sort_values. induction df as [|r df IH]; simpl.
  - reflexivity.
  - rewrite insert_by_date_in, IH. intuition.
Qed.

Lemma main_df_dates (csv : DataFrame cell) (d : Z) :
  In d (map fst (Home.main_df csv)) <-> In d (map fst csv).
Proof.
  unfold Home.main_df, to_numeric. rewrite map_map. simpl.
  rewrite !in_map_iff. split; intros (x & E & I); exists x; split; auto;
    apply sort_values_in; exact I.
Qed.

Lemma main_df_group (csv : DataFrame cell) (d : Z) :
  get_group d (Home.main_df csv) = map coerce (get_group d csv).
Proof.
  unfold Home.main_df.
  rewrite get_group_to_numeric, get_group_sort_values. reflexivity.
Qed.

Lemma portfolio_values_groupby (csv : DataFrame cell) :
  Home.portfolio_values csv = groupby_last (Home.main_df csv).
Proof.
  unfold Home.portfolio_values, sort_index. apply sort_values_sorted.
  rewrite groupby_last_dates. apply group_keys_sorted.
Qed.

Lemma portfolio_values_ascending (csv : DataFrame cell) :
  ascending (Home.portfolio_values csv).
Proof.
  unfold ascending. rewrite portfolio_values_groupby, groupby_last_dates.
  apply group_keys_sorted.
Qed.

Lemma portfolio_values_dates (csv : DataFrame cell) (d : Z) :
  In d (map fst (Home.portfolio_values csv)) <-> In d (map fst csv).
Proof.
  rewrite portfolio_values_groupby, groupby_last_dates, group_keys_in.
  apply main_df_dates.
Qed.

Lemma portfolio_values_in (csv : DataFrame cell) (d : Z) (v : float) :
  In (d, v) (Home.portfolio_values csv) <->
  In d (map fst csv) /\ v = last_valid (map coerce (get_group d csv)).
Proof.
  rewrite portfolio_values_groupby, groupby_last_in, main_df_dates, main_df_group.
  reflexivity.
Qed.

(** ** The value kept for a date *)

Lemma last_valid_app (vs : list float) (x : float) :
  last_valid (vs ++ [x]) = if is_nan x then last_valid vs else x.
Proof. unfold last_valid. rewrite fold_left_app. reflexivity. Qed.

Lemma last_valid_nan (vs : list float) :
  is_nan (last_valid vs) = true <-> forall v, In v vs -> is_nan v = true.
Proof.
  induction vs as [|x vs IH] using rev_ind.
  - simpl. split; [intros _ v [] | reflexivity].
  - rewrite last_valid_app. destruct (is_nan x) eqn:E.
    + rewrite IH. split; intros H v Hv.
      * apply in_app_or in Hv. destruct Hv as [Hv|[Hv|[]]];
          [apply H, Hv | subst; exact E].
      * apply H, in_or_app. auto.
    + split; [congruence|]. intro H.
      assert (N : is_nan x = true) by (apply H, in_or_app; simpl; auto).
      congruence.
Qed.

Lemma get_group_app {A : Type} (d : Z) (df df' : DataFrame A) :
  get_group d (df ++ df') = get_group d df ++ get_group d df'.
Proof. unfold get_group. rewrite filter_app, map_app. reflexivity. Qed.

Lemma get_group_in {A : Type} (d : Z) (df : DataFrame A) (c : A) :
  In c (get_group d df) <-> In (d, c) df.
Proof.
  unfold get_group. rewrite in_map_iff. split.
  - intros ([d' c'] & E & I). apply filter_In in I. destruct I as [I D].
    simpl in *. apply Z.eqb_eq in D. subst. exact I.
  - intro I. exists (d, c). split; [reflexivity|].
    apply filter_In. split; [exact I | apply Z.eqb_refl].
Qed.

Lemma last_entry_for_snoc_other (d : Z) (v : float) (csv : DataFrame cell)
      (r : Z * cell) :
  fst r <> d \/ is_nan (coerce (snd r)) = true ->
  (last_entry_for d v (csv ++ [r]) <-> last_entry_for d v csv).
Proof.
  intro Hr. unfold last_entry_for. split.
  - intros (before & c & after & E & Hc & Hv & Hafter).
    destruct after as [|a after'] using rev_ind.
    + apply app_inj_tail in E. destruct E as [_ E]. subst r. simpl in Hr.
      rewrite Hc in Hr. destruct Hr; congruence.
    + clear IHafter'.
      rewrite app_comm_cons, app_assoc in E. apply app_inj_tail in E.
      destruct E as [E Ea]. subst a.
      exists before, c, after'. repeat split; auto.
      intros c' I. apply Hafter, in_or_app. auto.
  - intros (before & c & after & E & Hc & Hv & Hafter).
    exists before, c, (after ++ [r]). repeat split; auto.
    + rewrite E, <- app_assoc. reflexivity.
    + intros c' I. apply in_app_or in I. destruct I as [I|[I|[]]].
      * apply Hafter, I.
      * subst r. simpl in Hr. destruct Hr; congruence.
Qed.

Lemma last_entry_for_snoc_same (d : Z) (v : float) (csv : DataFrame cell)
      (c : cell) :
  is_nan (coerce c) = false ->
  (last_entry_for d v (csv ++ [(d, c)]) <-> v = coerce c).
Proof.
  intro Hc. unfold last_entry_for. split.
  - intros (before & c0 & after & E & Hc0 & Hv & Hafter).
    destruct after as [|a after'] using rev_ind.
    + apply app_inj_tail in E. destruct E as [_ E]. inversion E. subst.
      reflexivity.
    + clear IHafter'.
      rewrite app_comm_cons, app_assoc in E. apply app_inj_tail in E.
      destruct E as [_ Ea]. subst a.
      assert (N : is_nan (coerce c) = true)
        by (apply Hafter, in_or_app; simpl; auto).
      congruence.
  - intro E. subst v. exists csv, c, [].
    split; [reflexivity|]. split; [reflexivity|]. split; [exact Hc|].
    intros c' [].
Qed.

Lemma last_valid_is_last_entry_for (csv : DataFrame cell) (d : Z) (v : float) :
  is_nan v = false ->
  (v = last_valid (map coerce (get_group d csv)) <-> last_entry_for d v csv).
Proof.
  intro Hv. induction csv as [|r csv IH] using rev_ind.
  - simpl. split.
    + intro E. subst v. discriminate.
    + intros (before & c & after & E & _). destruct before; discriminate.
  - rewrite get_group_app, map_app. destruct r as [d' c].
    destruct (Z.eq_dec d' d) as [Ed|Nd].
    + subst d'. unfold get_group at 2. simpl. rewrite Z.eqb_refl. simpl.
      rewrite last_valid_app. destruct (is_nan (coerce c)) eqn:Ec.
      * rewrite IH. symmetry. apply last_entry_for_snoc_other. auto.
      * symmetry. apply last_entry_for_snoc_same, Ec.
    + unfold get_group at 2. simpl.
      replace (d' =? d)%Z with false by (symmetry; apply Z.eqb_neq, Nd).
      simpl. rewrite app_nil_r, IH. symmetry.
      apply last_entry_for_snoc_other. auto.
Qed.

(** C6 on a file of 18 rows, two for each of the nine days from 2023-01-01
    on, holding the values 1000 to 1017 in this order: the date sort of
    line 71 exchanges the two rows of the median day, 2023-01-05, so the
    series of line 79 keeps 1008 for that day, where the last row of the
    day in the file holds 1009.  On the three rows of the claim's example
    the series is the one the claim gives. *)
Theorem quicksort_loses_last_row_of_median_date :
  Home.portfolio_values_quicksort duplicated_dates_file
  = Some [(19358, of_int 1001); (19359, of_int 1003); (19360, of_int 1005);
          (19361, of_int 1007); (19362, of_int 1008); (19363, of_int 1011);
          (19364, of_int 1013); (19365, of_int 1015);
          (19366, of_int 1017)]%Z /\
  last_entry_for 19362 (of_int 1009) duplicated_dates_file /\
  ~ last_entry_for 19362 (of_int 1008) duplicated_dates_file /\
  Home.portfolio_values_quicksort
    [(date_2023_01_01, Number (of_int 100));
     (date_2023_01_01, Number (of_int 110));
     (date_2024_01_01, Number (of_int 120))]
  = Some [(date_2023_01_01, of_int 110); (date_2024_01_01, of_int 120)].
Proof.
  split; [vm_compute; reflexivity|].
  split; [|split; [|vm_compute; reflexivity]].
  - apply last_valid_is_last_entry_for; vm_compute; reflexivity.
  - intro H. apply last_valid_is_last_entry_for in H; [|reflexivity].
    vm_compute in H. discriminate H.
Qed.

(** C7, as the code has it: a cell that fails coercion becomes NaN, which
    is not zero; every date of the input keeps an entry in the series; the
    entry of a date is NaN exactly when every cell of that date fails
    coercion, so such a date is not excluded; the computation is a total
    function, and the series is empty exactly when the input is. *)
Theorem failed_coercion_gives_nan_entry :
  forall csv : DataFrame cell,
    (forall s, coerce (Malformed s) = NaN /\
               feq (coerce (Malformed s)) zero = false) /\
    (forall d, In d (map fst csv) ->
               exists v, In (d, v) (Home.portfolio_values csv)) /\
    (forall d v,
        In (d, v) (Home.portfolio_values csv) ->
        (is_nan v = true <->
         forall c, In (d, c) csv -> is_nan (coerce c) = true)) /\
    (Home.portfolio_values csv = [] <-> csv = []).
Proof.
  intro csv. split; [intro s; split; reflexivity|].
  split; [|split].
  - intros d H. apply portfolio_values_dates in H.
    apply in_map_iff in H. destruct H as ([d' v] & E & I).
    simpl in E. subst d'. exists v. exact I.
  - intros d v H. apply portfolio_values_in in H. destruct H as [_ H].
    subst v. rewrite last_valid_nan. split.
    + intros Hall c I. apply Hall, in_map, get_group_in, I.
    + intros Hall x I. apply in_map_iff in I. destruct I as (c & E & I).
      subst x. apply Hall, get_group_in, I.
  - split.
    + intro E. destruct csv as [|r csv]; [reflexivity|]. exfalso.
      assert (I : In (fst r) (map fst (Home.portfolio_values (r :: csv))))
        by (apply portfolio_values_dates; simpl; auto).
      rewrite E in I. exact I.
    + intro E. subst csv. reflexivity.
Qed.

(** C7 as stated fails: the only row of 2023-01-01 has a malformed value,
    and the date stays in the series, with value NaN. *)
Lemma malformed_only_date_is_kept :
  Home.portfolio_values
    [(date_2023_01_01, Malformed "n/a");
     (date_2024_01_01, Number (of_int 120))]
  = [(date_2023_01_01, NaN); (date_2024_01_01, of_int 120)].
Proof. reflexivity. Qed.

(** ** [Home.py] against [main.py] *)

Lemma get_group_unique {A : Type} (df : DataFrame A) (r : Z * A) :
  NoDup (map fst df) -> In r df -> get_group (fst r) df = [snd r].
Proof.
  unfold get_group. induction df as [|x df IH]; intros Hn Hi.
  - contradiction.
  - simpl in Hn. apply NoDup_cons_iff in Hn. destruct Hn as [Hx Hn].
    simpl. destruct Hi as [Hi|Hi].
    + subst x. rewrite Z.eqb_refl. simpl. apply f_equal.
      destruct (filter (fun r0 => (fst r0 =? fst r)%Z) df) as [|y l] eqn:F;
        [reflexivity|].
      exfalso. apply Hx.
      assert (Iy : In y (filter (fun r0 => (fst r0 =? fst r)%Z) df))
        by (rewrite F; left; reflexivity).
      apply filter_In in Iy. destruct Iy as [Iy Ey].
      apply Z.eqb_eq in Ey. rewrite <- Ey. apply in_map, Iy.
    + replace (fst x =? fst r)%Z with false.
      * apply IH; assumption.
      * symmetry. apply Z.eqb_neq. intro E. apply Hx. rewrite E.
        apply in_map, Hi.
Qed.

Lemma last_valid_single (v : float) : last_valid [v] = v.
Proof. destruct v; reflexivity. Qed.

Lemma group_keys_ascending {A : Type} (df : DataFrame A) :
  StronglySorted Z.lt (map fst df) -> group_keys df = map fst df.
Proof.
  unfold group_keys. induction (map fst df) as [|k ks IH]; intro H; simpl.
  - reflexivity.
  - apply StronglySorted_inv in H. destruct H as [Hs Hall].
    rewrite (IH Hs). destruct ks as [|k' ks']; simpl; [reflexivity|].
    apply Forall_inv in Hall.
    replace (k ?= k')%Z with Lt by (symmetry; apply Z.compare_lt_iff, Hall).
    reflexivity.
Qed.

Lemma StronglySorted_lt_NoDup (l : list Z) : StronglySorted Z.lt l -> NoDup l.
Proof.
  induction l as [|x l IH]; intro H; constructor.
  - apply StronglySorted_inv in H. destruct H as [_ H].
    rewrite Forall_forall in H. intro I. specialize (H x I). lia.
  - apply IH. apply StronglySorted_inv in H. apply H.
Qed.

Lemma groupby_last_ascending (df : DataFrame float) :
  StronglySorted Z.lt (map fst df) -> groupby_last df = df.
Proof.
  intro H. unfold groupby_last. rewrite (group_keys_ascending _ H), map_map.
  transitivity (map (fun r : Z * float => r) df); [|apply map_id].
  apply map_ext_in. intros r I.
  rewrite (@get_group_unique _ df r (StronglySorted_lt_NoDup H) I).
  rewrite last_valid_single. destruct r; reflexivity.
Qed.

Lemma insert_by_date_ascending {A : Type} (r : Z * A) (df : DataFrame A) :
  StronglySorted Z.lt (map fst df) ->
  ~ In (fst r) (map fst df) ->
  StronglySorted Z.lt (map fst (insert_by_date r df)).
Proof.
  induction df as [|y df IH]; intros Hs Hn; simpl.
  - repeat constructor.
  - simpl in Hs, Hn. pose proof Hs as Hs'.
    apply StronglySorted_inv in Hs. destruct Hs as [Hs Hall].
    destruct (fst r <=? fst y)%Z eqn:L; simpl.
    + apply Z.leb_le in L. constructor; [exact Hs'|].
      assert (Lt : (fst r < fst y)%Z) by (assert (fst y <> fst r) by tauto; lia).
      constructor; [exact Lt|].
      rewrite Forall_forall in *. intros x Hx. specialize (Hall x Hx). lia.
    + apply Z.leb_gt in L. constructor.
      * apply IH; [exact Hs | tauto].
      * rewrite Forall_forall in *. intros x Hx.
        apply in_map_iff in Hx. destruct Hx as (z & Ez & Iz).
        apply insert_by_date_in in Iz. destruct Iz as [Iz|Iz].
        -- subst. exact L.
        -- subst x. apply Hall, in_map, Iz.
Qed.

Lemma sort_values_ascending {A : Type} (df : DataFrame A) :
  NoDup (map fst df) -> StronglySorted Z.lt (map fst (sort_values df)).
Proof.
  unfold sort_values. induction df as [|r df IH]; intro H; simpl.
  - constructor.
  - simpl in H. apply NoDup_cons_iff in H. destruct H as [Hn Hd].
    apply insert_by_date_ascending; [apply IH, Hd|].
    intro I. apply Hn. apply in_map_iff in I. destruct I as (x & E & I).
    rewrite <- E. apply in_map. apply (sort_values_in x df). exact I.
Qed.

Lemma main_df_ascending (csv : DataFrame cell) :
  NoDup (map fst csv) -> StronglySorted Z.lt (map fst (Main.main_df csv)).
Proof.
  intro H. unfold Main.main_df, to_numeric. rewrite map_map. simpl.
  apply sort_values_ascending, H.
Qed.

(** With one row per date the deduplicated series is the raw frame. *)
Lemma portfolio_values_distinct_dates (csv : DataFrame cell) :
  NoDup (map fst csv) -> Home.portfolio_values csv = Main.main_df csv.
Proof.
  intro H. rewrite portfolio_values_groupby.
  apply groupby_last_ascending. exact (main_df_ascending _ H).
Qed.

Lemma ascending_first_before_last (pv : Series) d0 v0 dn vn :
  ascending pv ->
  (2 <= length pv)%nat ->
  first_entry pv = Some (d0, v0) ->
  last_entry pv = Some (dn, vn) ->
  (d0 < dn)%Z.
Proof.
  unfold ascending, first_entry. intros Hs Hlen Hf Hl.
  destruct pv as [|e pv]; simpl in Hf; inversion Hf; subst e.
  destruct pv as [|e' pv']; [simpl in Hlen; lia|].
  rewrite last_entry_cons in Hl by discriminate.
  apply last_entry_in in Hl.
  simpl in Hs. apply StronglySorted_inv in Hs. destruct Hs as [_ Hall].
  rewrite Forall_forall in Hall.
  exact (Hall dn (in_map fst _ _ Hl)).
Qed.

Lemma cagr_agree_positive_span powr (pv : Series) d0 v0 dn vn :
  first_entry pv = Some (d0, v0) ->
  last_entry pv = Some (dn, vn) ->
  (d0 < dn)%Z ->
  Main.cagr powr pv = Home.cagr powr pv.
Proof.
  intros Hf Hl Hlt. unfold Main.cagr, Home.cagr, Main.portfolio_value.
  rewrite main_years_eq, (home_years_value _ Hf Hl). cbn [bind].
  replace (fgt (Fin (years_between d0 dn)) zero) with true
    by (symmetry; apply Qc_ltb_lt, years_between_pos, Hlt).
  reflexivity.
Qed.

(** From two rows on, with one row per date, the two scripts compute the
    same total return, CAGR and maximum drawdown. *)
Lemma scripts_agree_from_two_rows powr (csv : DataFrame cell) :
  NoDup (map fst csv) ->
  (2 <= length csv)%nat ->
  Main.total_return (Main.main_df csv)
  = Home.total_return (Home.portfolio_values csv) /\
  Main.cagr powr (Main.main_df csv)
  = Home.cagr powr (Home.portfolio_values csv) /\
  Main.max_drawdown (Main.main_df csv)
  = Home.max_drawdown (Home.portfolio_values csv).
Proof.
  intros Hn Hlen. rewrite (portfolio_values_distinct_dates _ Hn).
  split; [reflexivity|]. split; [|reflexivity].
  pose proof (main_df_ascending _ Hn) as Hs.
  assert (L : length (Main.main_df csv) = length csv).
  { rewrite <- (length_map fst), <- (length_map fst csv).
    unfold Main.main_df, to_numeric. rewrite map_map. simpl.
    clear. unfold sort_values. induction csv as [|r csv IH]; [reflexivity|].
    simpl. rewrite <- IH. clear.
    induction (fold_right insert_by_date [] csv) as [|y l IH]; simpl;
      [reflexivity|].
    destruct (fst r <=? fst y)%Z; simpl; [reflexivity|].
    rewrite IH. reflexivity. }
  assert (N : Main.main_df csv <> []) by (intro E; rewrite E in L; simpl in L; lia).
  destruct (nonempty_first_entry N) as [[d0 v0] Hf].
  destruct (nonempty_last_entry N) as [[dn vn] Hl].
  apply (cagr_agree_positive_span powr _ Hf Hl).
  apply (@ascending_first_before_last _ d0 v0 dn vn Hs); [lia | exact Hf | exact Hl].
Qed.

(** C10 at a file with a single row: [Home.py] reports a CAGR of zero,
    [main.py] divides by [years = 0] and raises. *)
Theorem single_row_main_raises :
  forall (powr : float -> float -> float) (d : Z) (x : float),
    Home.portfolio_values [(d, Number x)] = Main.main_df [(d, Number x)] /\
    Home.cagr powr (Home.portfolio_values [(d, Number x)]) = Ok zero /\
    Main.cagr powr (Main.main_df [(d, Number x)]) = Raise ZeroDivisionError.
Proof.
  intros powr d x.
  assert (E : Home.portfolio_values [(d, Number x)] = [(d, x)]).
  { rewrite portfolio_values_distinct_dates
      by (simpl; constructor; [intros [] | constructor]).
    reflexivity. }
  rewrite E. split; [reflexivity|]. split.
  - exact (@home_cagr_no_span powr [(d, x)] d x x eq_refl eq_refl).
  - change (Main.main_df [(d, Number x)]) with [(d, x)].
    unfold Main.cagr.
    rewrite main_years_eq,
      (@home_years_value [(d, x)] d x d x eq_refl eq_refl),
      years_between_same.
    reflexivity.
Qed.

(** * Further properties of the two scripts *)

Unset Implicit Arguments.

(** ** The underwater plot *)

Lemma Qcinv_pos (m : Qc) : 0 < m -> 0 < / m.
Proof.
  intro H. unfold Qclt, Qcinv in *.
  change (this (Q2Qc (/ this m))) with (Qred (/ this m)).
  rewrite Qred_correct. apply Qinv_lt_0_compat. exact H.
Qed.

Lemma Qcdiv_pos (v m : Qc) : 0 < v -> 0 < m -> 0 < v / m.
Proof.
  intros Hv Hm. unfold Qcdiv.
  rewrite <- (Qcmult_0_l (/ m)).
  apply Qcmult_lt_compat_r; [apply Qcinv_pos, Hm | exact Hv].
Qed.

Lemma drawdown_above_minus_one (v m : Qc) :
  0 < v -> 0 < m -> - (1) < v / m - 1.
Proof.
  intros Hv Hm. apply Qclt_minus_iff.
  replace (v / m - 1 + - - (1)) with (v / m) by ring.
  apply Qcdiv_pos; assumption.
Qed.

Lemma map_fst_combine {A B : Type} (l : list A) (l' : list B) :
  length l' = length l -> map fst (combine l l') = l.
Proof.
  revert l'. induction l as [|a l IH]; intros l' H; [reflexivity|].
  destruct l' as [|b l']; [discriminate|].
  simpl. rewrite IH; [reflexivity | simpl in H; congruence].
Qed.

Lemma chart_drawdown_length (pv : Series) :
  length (Main.chart_drawdown pv) = length pv.
Proof.
  unfold Main.chart_drawdown, cummax.
  rewrite length_zip_with_same by apply length_cummax_from.
  apply length_map.
Qed.

Lemma values_length (pv : Series) (qs : list Qc) :
  map snd pv = map Fin qs -> length qs = length pv.
Proof.
  intro H. rewrite <- (length_map snd pv), H. symmetry. apply length_map.
Qed.

Lemma positive_drawdown_bounds (qs : list Qc) (i : nat) (q : Qc) :
  Forall (fun x => 0 < x) qs ->
  nth_error qs i = Some q ->
  - (1) < q / running_peak qs i - 1 /\ q / running_peak qs i - 1 <= 0.
Proof.
  intros Hpos H. pose proof (@running_peak_pos qs i q Hpos H) as Pp. split.
  - apply drawdown_above_minus_one; [|exact Pp].
    rewrite Forall_forall in Hpos. apply Hpos. eapply nth_error_In, H.
  - apply (drawdown_nonpos Pp).
    exact (@running_peak_ge qs i i q (Nat.le_refl i) H).
Qed.

Lemma bar_of_drawdown (pv : Series) (qs : list Qc) (dd : list float) (x : float) :
  map snd pv = map Fin qs ->
  Forall (fun x => 0 < x) qs ->
  length dd = length pv ->
  (forall i q, nth_error qs i = Some q ->
               nth_error dd i = Some (Fin (q / running_peak qs i - 1))) ->
  In x dd ->
  exists q, x = Fin q /\ - (1) < q /\ q <= 0.
Proof.
  intros Hv Hpos Hlen Hnth Hx.
  destruct (In_nth_error _ _ Hx) as [i Hi].
  assert (Li : (i < length qs)%nat).
  { rewrite (values_length pv qs Hv), <- Hlen.
    apply nth_error_Some. congruence. }
  destruct (nth_error qs i) as [q|] eqn:E;
    [|apply nth_error_None in E; lia].
  rewrite (Hnth i q E) in Hi. inversion Hi. subst x.
  exists (q / running_peak qs i - 1). split; [reflexivity|].
  exact (positive_drawdown_bounds qs i q Hpos E).
Qed.

(** On a series of strictly positive values the underwater plot of
    [main.py] (lines 122-139) has one bar per date of the series, and every
    bar lies in the fixed domain of the y axis, from -1 to 0.  [main.py]
    divides by the running maximum before it subtracts, so no difference
    of two values is formed. *)
Theorem main_underwater_plot_within_domain :
  forall (pv : Series) (qs : list Qc),
    map snd pv = map Fin qs ->
    Forall (fun x => 0 < x) qs ->
    map fst (Main.dd_df pv) = map fst pv /\
    forall d x,
      In (d, x) (Main.dd_df pv) ->
      exists q, x = Fin q /\ - (1) <= q /\ q <= 0.
Proof.
  intros pv qs Hv Hpos. split.
  - unfold Main.dd_df. apply map_fst_combine.
    rewrite chart_drawdown_length. symmetry. apply length_map.
  - intros d x H. apply in_combine_r in H.
    destruct (bar_of_drawdown pv qs (Main.chart_drawdown pv) x Hv Hpos
                (chart_drawdown_length pv)) as (q & E & L & U);
      [|exact H|].
    + intros i q E. exact (@chart_drawdown_nth pv qs i q Hv Hpos E).
    + exists q. split; [exact E|]. split; [apply Qclt_le_weak, L | exact U].
Qed.

Lemma main_underwater_plot_scenario :
  map fst
    (Main.dd_df
       [(date_2023_01_01, of_int 100); (date_2023_07_01, of_int 80);
        (date_2024_01_01, of_int 120)])
  = [date_2023_01_01; date_2023_07_01; date_2024_01_01].
Proof.
  assert (P : Forall (fun x => 0 < x) [Q2Qc 100; Q2Qc 80; Q2Qc 120])
    by (repeat constructor).
  exact (proj1 (main_underwater_plot_within_domain
                  [(date_2023_01_01, of_int 100); (date_2023_07_01, of_int 80);
                   (date_2024_01_01, of_int 120)]
                  [Q2Qc 100; Q2Qc 80; Q2Qc 120] eq_refl P)).
Defined.

(** ** Colours *)

Lemma Qc_leb_le (a b : Qc) : Qc_leb a b = true <-> a <= b.
Proof.
  unfold Qc_leb. rewrite Qcle_alt.
  destruct (a ?= b); split; congruence.
Qed.

(** The bar colour of the monthly chart ([Home.py] line 144, [main.py]
    line 63) and the cell style of the yearly table ([Home.py] lines
    226-227) agree on every return, NaN and infinities included, except a
    return of zero: the chart paints it red, the table green. *)
Theorem colours_differ_only_at_zero :
  forall x : float,
    Main.color x = Home.color x /\
    (Home.color x = "green"%string ->
     Home.color_return x = "color: green; font-weight:600"%string) /\
    ((Home.color x = "red"%string /\
      Home.color_return x = "color: green; font-weight:600"%string) <->
     feq x zero = true).
Proof.
  intro x. split; [reflexivity|].
  unfold Home.color, Home.color_return, fgt, fge.
  destruct x as [| s | q]; simpl.
  - split; [discriminate|]. split; [intros [_ H]|]; discriminate.
  - destruct s; simpl; split; try discriminate; try reflexivity;
      (split; [intros [H1 H2]|]; discriminate).
  - change (Q2Qc (inject_Z 0)) with 0.
    destruct (Qc_dec 0 q) as [[L|G]|E].
    + replace (Qc_ltb 0 q) with true by (symmetry; apply Qc_ltb_lt, L).
      replace (Qc_leb 0 q) with true
        by (symmetry; apply Qc_leb_le, Qclt_le_weak, L).
      split; [reflexivity|]. split; [intros [H _]; discriminate|].
      intro H. apply Qc_eqb_eq in H. subst q.
      exfalso. exact (Qclt_not_eq _ _ L eq_refl).
    + replace (Qc_ltb 0 q) with false
        by (symmetry; apply Qc_ltb_ge, Qclt_le_weak, G).
      replace (Qc_leb 0 q) with false.
      * split; [discriminate|]. split; [intros [_ H]; discriminate|].
        intro H. apply Qc_eqb_eq in H. subst q.
        exfalso. exact (Qclt_not_eq _ _ G eq_refl).
      * symmetry. destruct (Qc_leb 0 q) eqn:B; [|reflexivity].
        apply Qc_leb_le in B. exfalso. exact (Qcle_not_lt _ _ B G).
    + subst q. split; [discriminate|]. split; [reflexivity|].
      intros _. split; reflexivity.
Qed.

(** ** The holdings table *)

Lemma dates_max_none (ds : list Z) : dates_max ds = None <-> ds = [].
Proof.
  destruct ds as [|d ds]; simpl; [tauto|].
  destruct (dates_max ds); split; discriminate.
Qed.

Lemma dates_max_some (ds : list Z) (m : Z) :
  dates_max ds = Some m <->
  In m ds /\ forall d, In d ds -> (d <= m)%Z.
Proof.
  revert m. induction ds as [|x ds IH]; intro m; simpl.
  - split; [discriminate | intros [[] _]].
  - destruct (dates_max ds) as [m'|] eqn:E.
    + destruct (proj1 (IH m') eq_refl) as [I' U']. split.
      * intro H. inversion H. subst m. split.
        -- destruct (Z.max_spec x m') as [[_ M]|[_ M]]; rewrite M; auto.
        -- intros d [Hd|Hd]; [subst; lia | specialize (U' d Hd); lia].
      * intros [I U]. apply f_equal.
        pose proof (U x (or_introl eq_refl)).
        pose proof (U m' (or_intror I')).
        destruct I as [I|I]; [subst; lia | specialize (U' m I); lia].
    + apply dates_max_none in E. subst ds. split.
      * intro H. inversion H. subst. split; [auto|].
        intros d [Hd|[]]. subst. lia.
      * intros [[I|[]] _]. subst. reflexivity.
Qed.

Lemma filter_map_snd {A : Type} (p : A -> bool) (df : DataFrame A) :
  map snd (filter (fun r => p (snd r)) df) = filter p (map snd df).
Proof.
  induction df as [|r df IH]; simpl; [reflexivity|].
  destruct (p (snd r)); simpl; rewrite IH; reflexivity.
Qed.

Lemma filter_permutation {A : Type} (p : A -> bool) (l l' : list A) :
  Permutation l l' -> Permutation (filter p l) (filter p l').
Proof.
  induction 1 as [|x l l' _ IH|x y l|l l' l'' _ IH _ IH']; simpl.
  - constructor.
  - destruct (p x); [constructor|]; exact IH.
  - destruct (p x), (p y); try apply Permutation_refl. constructor.
  - exact (Permutation_trans IH IH').
Qed.

(** The holdings table of [Home.py] (lines 121-126) on a file with at
    least one row, read from the frame the date sort of line 71 leaves,
    which holds the rows of the file in some order: the latest date is the
    greatest date of the file, and the table holds exactly the rows whose
    status is [Held] among the rows of that date, each as often as the
    file has it, in an order the sort decides.  Rows of earlier dates
    never appear, held or not. *)
Theorem holdings_are_held_rows_of_latest_date :
  forall (csv df : DataFrame Holding) (m : Z),
    Permutation df csv ->
    In m (map fst csv) ->
    (forall d, In d (map fst csv) -> (d <= m)%Z) ->
    Home.latest_date df = Some m /\
    Permutation (Home.data_to_show df)
                (map shown_columns (filter is_held (get_group m csv))).
Proof.
  intros csv df m P Im Um.
  assert (Pd : Permutation (map fst csv) (map fst df))
    by (apply Permutation_map, Permutation_sym, P).
  assert (L : Home.latest_date df = Some m).
  { unfold Home.latest_date. apply dates_max_some. split.
    - exact (Permutation_in m Pd Im).
    - intros d Hd. apply Um.
      exact (Permutation_in d (Permutation_sym Pd) Hd). }
  split; [exact L|].
  unfold Home.data_to_show, Home.only_data, Home.latest_data. rewrite L.
  unfold get_group.
  rewrite <- (filter_map_snd is_held), map_map.
  apply (Permutation_map (fun r => shown_columns (snd r))).
  apply (filter_permutation (fun r => is_held (snd r))).
  apply filter_permutation, P.
Qed.

Lemma holdings_scenario :
  Home.latest_date
    [(date_2023_01_01, holding "Held" "OLD" 500);
     (date_2024_01_01, holding "Sold" "OUT" 700);
     (date_2024_01_01, holding "Held" "NEW" 900)]
  = Some date_2024_01_01 /\
  Permutation
    (Home.data_to_show
       [(date_2023_01_01, holding "Held" "OLD" 500);
        (date_2024_01_01, holding "Sold" "OUT" 700);
        (date_2024_01_01, holding "Held" "NEW" 900)])
    [shown_columns (holding "Held" "NEW" 900)].
Proof.
  apply (holdings_are_held_rows_of_latest_date
           [(date_2024_01_01, holding "Sold" "OUT" 700);
            (date_2023_01_01, holding "Held" "OLD" 500);
            (date_2024_01_01, holding "Held" "NEW" 900)]
           [(date_2023_01_01, holding "Held" "OLD" 500);
            (date_2024_01_01, holding "Sold" "OUT" 700);
            (date_2024_01_01, holding "Held" "NEW" 900)]
           date_2024_01_01).
  - apply perm_swap.
  - simpl. auto.
  - intros d [H|[H|[H|[]]]]; subst; vm_compute; discriminate.
Defined.

(** ** Earliest and latest date *)

Lemma insert_by_date_le_sorted {A : Type} (r : Z * A) (df : DataFrame A) :
  StronglySorted Z.le (map fst df) ->
  StronglySorted Z.le (map fst (insert_by_date r df)).
Proof.
  induction df as [|y df IH]; intro Hs; simpl.
  - repeat constructor.
  - simpl in Hs. pose proof Hs as Hs'.
    apply StronglySorted_inv in Hs. destruct Hs as [Hs Hall].
    destruct (fst r <=? fst y)%Z eqn:L; simpl.
    + apply Z.leb_le in L. constructor; [exact Hs'|].
      constructor; [exact L|].
      rewrite Forall_forall in *. intros x Hx. specialize (Hall x Hx). lia.
    + apply Z.leb_gt in L. constructor; [apply IH, Hs|].
      rewrite Forall_forall in *. intros x Hx.
      apply in_map_iff in Hx. destruct Hx as (z & Ez & Iz).
      apply insert_by_date_in in Iz. destruct Iz as [Iz|Iz].
      * subst. lia.
      * subst x. apply Hall, in_map, Iz.
Qed.

Lemma sort_values_le_sorted {A : Type} (df : DataFrame A) :
  StronglySorted Z.le (map fst (sort_values df)).
Proof.
  unfold sort_values. induction df as [|r df IH]; simpl.
  - constructor.
  - apply insert_by_date_le_sorted, IH.
Qed.

Lemma ascending_le_sorted (l : list Z) :
  StronglySorted Z.lt l -> StronglySorted Z.le l.
Proof.
  induction 1 as [|a l Hs IH Hall]; constructor; [exact IH|].
  rewrite Forall_forall in *. intros x Hx. specialize (Hall x Hx). lia.
Qed.

Lemma sorted_first_is_least (l : list Z) (a : Z) :
  StronglySorted Z.le l -> hd_error l = Some a ->
  In a l /\ forall x, In x l -> (a <= x)%Z.
Proof.
  intros Hs H. destruct l as [|b l]; [discriminate|].
  simpl in H. inversion H. subst b. split; [left; reflexivity|].
  apply StronglySorted_inv in Hs. destruct Hs as [_ Hall].
  rewrite Forall_forall in Hall.
  intros x [Hx|Hx]; [subst; lia | apply Hall, Hx].
Qed.

Lemma sorted_last_is_greatest (l : list Z) (b : Z) :
  StronglySorted Z.le l -> hd_error (rev l) = Some b ->
  In b l /\ forall x, In x l -> (x <= b)%Z.
Proof.
  induction l as [|a l IH]; intros Hs H; [discriminate|].
  apply StronglySorted_inv in Hs. destruct Hs as [Hs Hall].
  rewrite Forall_forall in Hall.
  simpl in H. destruct (rev l) as [|c r] eqn:E.
  - assert (l = []) by (rewrite <- (rev_involutive l), E; reflexivity).
    subst l. simpl in H. inversion H. subst b.
    split; [left; reflexivity|]. intros x [Hx|[]]. subst. lia.
  - simpl in H. inversion H. subst c.
    destruct (IH Hs eq_refl) as [I U]. split; [right; exact I|].
    intros x [Hx|Hx]; [subst; apply Hall, I | apply U, Hx].
Qed.

Lemma entry_dates_first (pv : Series) (d : Z) (v : float) :
  first_entry pv = Some (d, v) -> hd_error (map fst pv) = Some d.
Proof.
  unfold first_entry. destruct pv; simpl; intro H; inversion H; reflexivity.
Qed.

Lemma entry_dates_last (pv : Series) (d : Z) (v : float) :
  last_entry pv = Some (d, v) -> hd_error (rev (map fst pv)) = Some d.
Proof.
  unfold last_entry. rewrite <- map_rev.
  destruct (rev pv); simpl; intro H; inversion H; reflexivity.
Qed.

(** The first and last rows of a frame sorted by date carry the least and
    the greatest date. *)
Lemma sorted_frame_span (pv : Series) (d0 dn lo hi : Z) (v0 vn : float) :
  StronglySorted Z.le (map fst pv) ->
  first_entry pv = Some (d0, v0) ->
  last_entry pv = Some (dn, vn) ->
  In lo (map fst pv) -> In hi (map fst pv) ->
  (forall d, In d (map fst pv) -> (lo <= d <= hi)%Z) ->
  d0 = lo /\ dn = hi.
Proof.
  intros Hs Hf Hl Ilo Ihi Hb.
  destruct (sorted_first_is_least _ _ Hs (entry_dates_first _ _ _ Hf))
    as [I0 U0].
  destruct (sorted_last_is_greatest _ _ Hs (entry_dates_last _ _ _ Hl))
    as [In' Un].
  pose proof (U0 lo Ilo). pose proof (Un hi Ihi).
  pose proof (Hb d0 I0). pose proof (Hb dn In'). lia.
Qed.

Lemma main_days_eq (pv : Series) : Main.days pv = Home.days pv.
Proof.
  unfold Main.days, Home.days.
  destruct (iloc (map fst pv) 0) eqn:E0, (iloc (map fst pv) (-1)) eqn:E1;
    simpl; try reflexivity.
  apply iloc_raise in E0, E1. subst. reflexivity.
Qed.

Lemma nonempty_dates {A : Type} (df : DataFrame A) (d : Z) :
  In d (map fst df) -> df <> [].
Proof. intros H E. subst. exact H. Qed.

(** The time span behind the CAGR does not depend on the order of the
    rows: in [Home.py] (lines 85-87) and in [main.py] (line 28) alike,
    [days] is the greatest date of the file minus the least. *)
Theorem days_is_latest_minus_earliest :
  forall (csv : DataFrame cell) (lo hi : Z),
    In lo (map fst csv) ->
    In hi (map fst csv) ->
    (forall d, In d (map fst csv) -> (lo <= d <= hi)%Z) ->
    Home.days (Home.portfolio_values csv) = Ok (hi - lo)%Z /\
    Main.days (Main.main_df csv) = Ok (hi - lo)%Z.
Proof.
  intros csv lo hi Ilo Ihi Hb. split.
  - set (pv := Home.portfolio_values csv).
    assert (N : pv <> [])
      by (apply (nonempty_dates pv lo), portfolio_values_dates, Ilo).
    destruct (nonempty_first_entry N) as [[d0 v0] Hf].
    destruct (nonempty_last_entry N) as [[dn vn] Hl].
    destruct (sorted_frame_span pv d0 dn lo hi v0 vn) as [E0 En]; auto.
    + apply ascending_le_sorted, portfolio_values_ascending.
    + apply portfolio_values_dates, Ilo.
    + apply portfolio_values_dates, Ihi.
    + intros d Hd. apply Hb, portfolio_values_dates, Hd.
    + subst. exact (home_days_value _ Hf Hl).
  - rewrite main_days_eq. set (df := Main.main_df csv).
    assert (Dt : forall d, In d (map fst df) <-> In d (map fst csv))
      by (intro d; apply main_df_dates).
    assert (N : df <> []) by (apply (nonempty_dates df lo), Dt, Ilo).
    destruct (nonempty_first_entry N) as [[d0 v0] Hf].
    destruct (nonempty_last_entry N) as [[dn vn] Hl].
    destruct (sorted_frame_span df d0 dn lo hi v0 vn) as [E0 En]; auto.
    + unfold df, Main.main_df, to_numeric. rewrite map_map. simpl.
      apply sort_values_le_sorted.
    + apply Dt, Ilo.
    + apply Dt, Ihi.
    + intros d Hd. apply Hb, Dt, Hd.
    + subst. exact (home_days_value _ Hf Hl).
Qed.

Lemma days_scenario :
  Home.days
    (Home.portfolio_values
       [(date_2024_01_01, Number (of_int 120));
        (date_2023_01_01, Number (of_int 100));
        (date_2023_07_01, Number (of_int 80))])
  = Ok 365%Z.
Proof.
  refine (proj1 (days_is_latest_minus_earliest
                   [(date_2024_01_01, Number (of_int 120));
                    (date_2023_01_01, Number (of_int 100));
                    (date_2023_07_01, Number (of_int 80))]
                   date_2023_01_01 date_2024_01_01 _ _ _)).
  - simpl. auto.
  - simpl. auto.
  - intros d [H|[H|[H|[]]]]; subst; vm_compute; split; discriminate.
Defined.

(** ** When [main.py] raises *)

Lemma main_df_nonempty (csv : DataFrame cell) :
  csv <> [] -> Main.main_df csv <> [].
Proof.
  intro H. destruct csv as [|r csv]; [congruence|].
  apply (nonempty_dates _ (fst r)), main_df_dates. left. reflexivity.
Qed.

Lemma main_df_le_sorted (csv : DataFrame cell) :
  StronglySorted Z.le (map fst (Main.main_df csv)).
Proof.
  unfold Main.main_df, to_numeric. rewrite map_map. simpl.
  apply sort_values_le_sorted.
Qed.

Lemma main_cagr_no_span (powr : float -> float -> float) (pv : Series)
      (d : Z) (v0 vn : float) :
  first_entry pv = Some (d, v0) ->
  last_entry pv = Some (d, vn) ->
  Main.cagr powr pv = Raise ZeroDivisionError.
Proof.
  intros Hf Hl. unfold Main.cagr, Main.portfolio_value.
  rewrite main_years_eq, (home_years_value _ Hf Hl), years_between_same.
  cbn [bind].
  rewrite (iloc_last_value _ Hl), (iloc_first_value _ Hf). reflexivity.
Qed.

(** The metrics of [main.py] (lines 27-34) raise an index error on a file
    without rows, raise a division by zero on every file whose rows all
    carry one date, and return on every file with two different dates. *)
Theorem main_metrics_raise_without_time_span :
  forall (powr : float -> float -> float) (csv : DataFrame cell),
    (csv = [] -> Main.metrics powr (Main.main_df csv) = Raise IndexError) /\
    (csv <> [] ->
     (forall d d', In d (map fst csv) -> In d' (map fst csv) -> d = d') ->
     Main.metrics powr (Main.main_df csv) = Raise ZeroDivisionError) /\
    (forall d d',
        In d (map fst csv) -> In d' (map fst csv) -> d <> d' ->
        exists out, Main.metrics powr (Main.main_df csv) = Ok out).
Proof.
  intros powr csv. split; [|split].
  - intro E. subst. reflexivity.
  - intros N Hsame. pose proof (main_df_nonempty csv N) as N'.
    destruct (nonempty_first_entry N') as [[d0 v0] Hf].
    destruct (nonempty_last_entry N') as [[dn vn] Hl].
    destruct (sorted_first_is_least _ _ (main_df_le_sorted csv)
                (entry_dates_first _ _ _ Hf)) as [I0 _].
    destruct (sorted_last_is_greatest _ _ (main_df_le_sorted csv)
                (entry_dates_last _ _ _ Hl)) as [In' _].
    assert (E : d0 = dn)
      by (apply Hsame; apply main_df_dates; assumption).
    subst dn. unfold Main.metrics.
    rewrite main_total_return_eq, (total_return_value _ Hf Hl). cbn [bind].
    rewrite (main_cagr_no_span powr _ d0 v0 vn Hf Hl). reflexivity.
  - intros d d' Hd Hd' Hne.
    assert (N' : Main.main_df csv <> [])
      by (apply (nonempty_dates _ d), main_df_dates, Hd).
    destruct (nonempty_first_entry N') as [[d0 v0] Hf].
    destruct (nonempty_last_entry N') as [[dn vn] Hl].
    destruct (sorted_first_is_least _ _ (main_df_le_sorted csv)
                (entry_dates_first _ _ _ Hf)) as [_ U0].
    destruct (sorted_last_is_greatest _ _ (main_df_le_sorted csv)
                (entry_dates_last _ _ _ Hl)) as [_ Un].
    apply main_df_dates in Hd, Hd'.
    pose proof (U0 d Hd). pose proof (U0 d' Hd').
    pose proof (Un d Hd). pose proof (Un d' Hd').
    assert (Hlt : (d0 < dn)%Z) by lia.
    unfold Main.metrics.
    rewrite main_total_return_eq, (total_return_value _ Hf Hl). cbn [bind].
    rewrite (cagr_agree_positive_span powr _ Hf Hl Hlt).
    destruct (home_cagr_returns powr _ Hf Hl) as [c Hc]. rewrite Hc.
    cbn [bind]. eexists. reflexivity.
Qed.

(** ** Duplicate dates in [main.py] and in [Home.py] *)

Lemma first_key_of_sorted_frame (df : DataFrame float) (d0 : Z) (v0 : float) :
  StronglySorted Z.le (map fst df) ->
  first_entry df = Some (d0, v0) ->
  hd_error (group_keys df) = Some d0.
Proof.
  intros Hs Hf.
  destruct (sorted_first_is_least _ _ Hs (entry_dates_first _ _ _ Hf))
    as [I0 U0].
  destruct (group_keys df) as [|k ks] eqn:E.
  - exfalso. apply group_keys_in in I0. rewrite E in I0. exact I0.
  - simpl. apply f_equal.
    pose proof (group_keys_sorted df) as Ks. rewrite E in Ks.
    destruct (sorted_first_is_least _ _ (ascending_le_sorted _ Ks) eq_refl)
      as [Ik Uk].
    rewrite <- E in Ik, Uk.
    pose proof (Uk d0 (proj2 (group_keys_in df d0) I0)).
    pose proof (U0 k (proj1 (group_keys_in df k) Ik)). lia.
Qed.

Lemma last_key_of_sorted_frame (df : DataFrame float) (dn : Z) (vn : float) :
  StronglySorted Z.le (map fst df) ->
  last_entry df = Some (dn, vn) ->
  hd_error (rev (group_keys df)) = Some dn.
Proof.
  intros Hs Hl.
  destruct (sorted_last_is_greatest _ _ Hs (entry_dates_last _ _ _ Hl))
    as [In' Un].
  destruct (rev (group_keys df)) as [|k ks] eqn:E.
  - exfalso. apply group_keys_in in In'.
    rewrite <- (rev_involutive (group_keys df)), E in In'. exact In'.
  - simpl. apply f_equal.
    destruct (sorted_last_is_greatest _ k
                (ascending_le_sorted _ (group_keys_sorted df)))
      as [Ik Uk]; [rewrite E; reflexivity|].
    pose proof (Uk dn (proj2 (group_keys_in df dn) In')).
    pose proof (Un k (proj1 (group_keys_in df k) Ik)). lia.
Qed.

Lemma groupby_last_first_entry (df : DataFrame float) (d0 : Z) (v0 : float) :
  StronglySorted Z.le (map fst df) ->
  first_entry df = Some (d0, v0) ->
  first_entry (groupby_last df) = Some (d0, last_valid (get_group d0 df)) /\
  hd_error (get_group d0 df) = Some v0.
Proof.
  intros Hs Hf. split.
  - pose proof (first_key_of_sorted_frame df d0 v0 Hs Hf) as K.
    unfold groupby_last, first_entry.
    destruct (group_keys df); simpl in *; inversion K. reflexivity.
  - unfold first_entry in Hf. destruct df as [|r df]; [discriminate|].
    simpl in Hf. inversion Hf. subst r.
    unfold get_group. simpl. rewrite Z.eqb_refl. reflexivity.
Qed.

Lemma last_entry_split (pv : Series) (e : Z * float) :
  last_entry pv = Some e -> exists init, pv = init ++ [e].
Proof.
  unfold last_entry. intro H. destruct (rev pv) as [|x r] eqn:E;
    [discriminate|].
  simpl in H. inversion H. subst x. exists (rev r).
  rewrite <- (rev_involutive pv), E. reflexivity.
Qed.

Lemma groupby_last_last_entry (df : DataFrame float) (dn : Z) (vn : float) :
  StronglySorted Z.le (map fst df) ->
  last_entry df = Some (dn, vn) ->
  is_nan vn = false ->
  last_entry (groupby_last df) = Some (dn, vn).
Proof.
  intros Hs Hl Hv.
  pose proof (last_key_of_sorted_frame df dn vn Hs Hl) as K.
  unfold groupby_last, last_entry. rewrite <- map_rev.
  destruct (rev (group_keys df)) as [|k ks]; simpl in *; inversion K.
  subst k. do 2 apply f_equal.
  destruct (last_entry_split df _ Hl) as [init E]. rewrite E.
  rewrite get_group_app. unfold get_group at 2. simpl.
  rewrite Z.eqb_refl. simpl. rewrite last_valid_app, Hv. reflexivity.
Qed.

Lemma main_df_value (csv : DataFrame cell) (d : Z) (v : float) :
  In (d, v) (Main.main_df csv) -> exists c, In (d, c) csv /\ v = coerce c.
Proof.
  unfold Main.main_df, to_numeric. intro H.
  apply in_map_iff in H. destruct H as ([d' c] & E & I).
  simpl in E. inversion E. subst. exists c. split; [|reflexivity].
  apply (sort_values_in (d, c) csv), I.
Qed.

Lemma first_entry_in (pv : Series) (e : Z * float) :
  first_entry pv = Some e -> In e pv.
Proof.
  unfold first_entry. destruct pv; simpl; intro H; inversion H.
  left. reflexivity.
Qed.

Lemma last_valid_of_numbers (vs : list float) (v : float) :
  (forall x, In x vs -> is_nan x = false) ->
  hd_error (rev vs) = Some v ->
  last_valid vs = v.
Proof.
  intros Hnum Hl. destruct (rev vs) as [|x r] eqn:E; [discriminate|].
  simpl in Hl. inversion Hl. subst x.
  assert (Ev : vs = rev r ++ [v])
    by (rewrite <- (rev_involutive vs), E; reflexivity).
  rewrite Ev, last_valid_app.
  rewrite (Hnum v); [reflexivity|].
  rewrite Ev. apply in_or_app. simpl. auto.
Qed.

Lemma nonempty_rev_hd {A : Type} (l : list A) (a : A) :
  hd_error l = Some a -> exists b, hd_error (rev l) = Some b.
Proof.
  destruct l as [|x l]; [discriminate|]. intros _.
  destruct (rev (x :: l)) as [|b r] eqn:E.
  - apply (f_equal (@length A)) in E. rewrite length_rev in E. discriminate.
  - exists b. reflexivity.
Qed.

(** On the frame the date sort of line 19 of [main.py], and of line 71 of
    [Home.py], leaves, when every value is a number: [main.py], which
    keeps every row, and [Home.py], which keeps one row per date, end on
    the same entry, with the same last date and the same last value.  They
    start on the same date, but [main.py] starts from the value of the
    first row that frame has for that date and [Home.py] from the value
    of the last one; with several rows on the earliest date the two total
    returns are computed from different rows. *)
Theorem scripts_end_alike_and_start_on_different_rows :
  forall df : DataFrame float,
    StronglySorted Z.le (map fst df) ->
    (forall d v, In (d, v) df -> is_nan v = false) ->
    last_entry (sort_index (groupby_last df)) = last_entry df /\
    forall d0 v0,
      first_entry df = Some (d0, v0) ->
      exists v,
        first_entry (sort_index (groupby_last df)) = Some (d0, v) /\
        hd_error (get_group d0 df) = Some v0 /\
        hd_error (rev (get_group d0 df)) = Some v.
Proof.
  intros df Hs Hnum.
  assert (E : sort_index (groupby_last df) = groupby_last df).
  { unfold sort_index. apply sort_values_sorted.
    rewrite groupby_last_dates. apply group_keys_sorted. }
  rewrite E. split.
  - destruct (last_entry df) as [[dn vn]|] eqn:Hl.
    + apply (groupby_last_last_entry _ dn vn Hs Hl).
      exact (Hnum dn vn (@last_entry_in _ _ Hl)).
    + unfold last_entry in Hl.
      assert (N : df = []).
      { rewrite <- (rev_involutive df).
        destruct (rev df); [reflexivity | discriminate]. }
      rewrite N. reflexivity.
  - intros d0 v0 Hf.
    destruct (groupby_last_first_entry _ d0 v0 Hs Hf) as [F G].
    destruct (nonempty_rev_hd _ _ G) as [v Hv].
    exists v. split; [|split; [exact G | exact Hv]].
    rewrite F. do 2 apply f_equal.
    apply last_valid_of_numbers; [|exact Hv].
    intros x Hx. apply (Hnum d0 x), get_group_in, Hx.
Qed.

Lemma duplicate_dates_scenario :
  last_entry
    (sort_index
       (groupby_last
          [(date_2023_01_01, of_int 100); (date_2023_01_01, of_int 110);
           (date_2024_01_01, of_int 120)]))
  = Some (date_2024_01_01, of_int 120) /\
  Main.total_return
    [(date_2023_01_01, of_int 100); (date_2023_01_01, of_int 110);
     (date_2024_01_01, of_int 120)]
  = Ok (Fin (Q2Qc (1 # 5))) /\
  Home.total_return
    (sort_index
       (groupby_last
          [(date_2023_01_01, of_int 100); (date_2023_01_01, of_int 110);
           (date_2024_01_01, of_int 120)]))
  = Ok (Fin (Q2Qc (1 # 11))).
Proof.
  split; [|split; vm_compute; qc_compute].
  refine (proj1 (scripts_end_alike_and_start_on_different_rows
                   [(date_2023_01_01, of_int 100);
                    (date_2023_01_01, of_int 110);
                    (date_2024_01_01, of_int 120)] _ _)).
  - repeat (constructor; try (vm_compute; discriminate)).
  - intros d v [H|[H|[H|[]]]]; inversion H; reflexivity.
Defined.

(** ** A first or last date without a value *)

Lemma fdiv_nan_r (x : float) : fdiv x NaN = NaN.
Proof. destruct x; reflexivity. Qed.

Lemma is_nan_eq (x : float) : is_nan x = true -> x = NaN.
Proof. destruct x; simpl; [reflexivity | discriminate | discriminate]. Qed.

Lemma series_entry_all_malformed (csv : DataFrame cell) (m : Z) (v : float) :
  (forall c, In (m, c) csv -> is_nan (coerce c) = true) ->
  In (m, v) (Home.portfolio_values csv) ->
  v = NaN.
Proof.
  intros Hbad I. apply portfolio_values_in in I. destruct I as [_ E].
  subst v. apply is_nan_eq, last_valid_nan.
  intros x Hx. apply in_map_iff in Hx. destruct Hx as (c & Ec & Ic).
  subst x. apply Hbad, get_group_in, Ic.
Qed.

Lemma boundary_date_without_number (powr : float -> float -> float)
      (csv : DataFrame cell) (m : Z) :
  In m (map fst csv) ->
  (forall d, In d (map fst csv) -> (m <= d)%Z) \/
  (forall d, In d (map fst csv) -> (d <= m)%Z) ->
  (forall c, In (m, c) csv -> is_nan (coerce c) = true) ->
  exists r,
    Home.compute_metrics powr (Home.portfolio_values csv) = Ok r /\
    mr_total_return r = NaN.
Proof.
  intros Im Hm Hbad.
  set (pv := Home.portfolio_values csv).
  assert (N : pv <> [])
    by (apply (nonempty_dates pv m), portfolio_values_dates, Im).
  destruct (nonempty_first_entry N) as [[d0 v0] Hf].
  destruct (nonempty_last_entry N) as [[dn vn] Hl].
  destruct (compute_metrics_returns powr _ Hf Hl) as (r & Hr & Ht).
  exists r. split; [exact Hr|]. rewrite Ht.
  pose proof (ascending_le_sorted _ (portfolio_values_ascending csv)) as Hs.
  destruct (sorted_first_is_least _ _ Hs (entry_dates_first _ _ _ Hf))
    as [I0 U0].
  destruct (sorted_last_is_greatest _ _ Hs (entry_dates_last _ _ _ Hl))
    as [In' Un].
  apply portfolio_values_dates in Im.
  destruct Hm as [Hm|Hm].
  - assert (E : d0 = m).
    { pose proof (U0 m Im).
      pose proof (Hm d0 (proj1 (portfolio_values_dates csv d0) I0)). lia. }
    subst d0.
    rewrite (series_entry_all_malformed csv m v0 Hbad (first_entry_in _ _ Hf)).
    rewrite fdiv_nan_r. reflexivity.
  - assert (E : dn = m).
    { pose proof (Un m Im).
      pose proof (Hm dn (proj1 (portfolio_values_dates csv dn) In')). lia. }
    subst dn.
    rewrite (series_entry_all_malformed csv m vn Hbad (@last_entry_in _ _ Hl)).
    reflexivity.
Qed.

Lemma main_boundary_date_without_number (csv : DataFrame cell) (m : Z) :
  In m (map fst csv) ->
  (forall d, In d (map fst csv) -> (m <= d)%Z) \/
  (forall d, In d (map fst csv) -> (d <= m)%Z) ->
  (forall c, In (m, c) csv -> is_nan (coerce c) = true) ->
  Main.total_return (Main.main_df csv) = Ok NaN.
Proof.
  intros Im Hm Hbad.
  set (df := Main.main_df csv).
  assert (Id : forall d, In d (map fst df) <-> In d (map fst csv))
    by (intro d; apply main_df_dates).
  assert (N : df <> []) by (apply (nonempty_dates df m), Id, Im).
  destruct (nonempty_first_entry N) as [[d0 v0] Hf].
  destruct (nonempty_last_entry N) as [[dn vn] Hl].
  assert (T : Main.total_return df = Ok (fsub (fdiv vn v0) one))
    by exact (total_return_value _ Hf Hl).
  rewrite T. apply f_equal.
  pose proof (main_df_le_sorted csv) as Hs. fold df in Hs.
  destruct (sorted_first_is_least _ _ Hs (entry_dates_first _ _ _ Hf))
    as [I0 U0].
  destruct (sorted_last_is_greatest _ _ Hs (entry_dates_last _ _ _ Hl))
    as [In' Un].
  apply Id in Im.
  destruct Hm as [Hm|Hm].
  - assert (E : d0 = m).
    { pose proof (U0 m Im). pose proof (Hm d0 (proj1 (Id d0) I0)). lia. }
    subst d0.
    destruct (main_df_value csv m v0 (first_entry_in _ _ Hf)) as (c & Ic & Ec).
    rewrite Ec, (is_nan_eq _ (Hbad c Ic)), fdiv_nan_r. reflexivity.
  - assert (E : dn = m).
    { pose proof (Un m Im). pose proof (Hm dn (proj1 (Id dn) In')). lia. }
    subst dn.
    destruct (main_df_value csv m vn (@last_entry_in _ _ Hl)) as (c & Ic & Ec).
    rewrite Ec, (is_nan_eq _ (Hbad c Ic)). reflexivity.
Qed.

(** On a file whose value column [read_csv] parses as numbers, an empty
    cell or an NA token being NaN: when every value of the earliest date
    of the file, or every value of its latest date, is NaN, lines 68-105
    of [Home.py] compute the metrics without an error and the total return
    is NaN; the total return of [main.py] (line 27) is NaN as well. *)
Theorem missing_boundary_value_gives_nan_return :
  forall (powr : float -> float -> float) (df : DataFrame float) (m : Z),
    In m (map fst df) ->
    (forall d, In d (map fst df) -> (m <= d)%Z) \/
    (forall d, In d (map fst df) -> (d <= m)%Z) ->
    (forall v, In (m, v) df -> is_nan v = true) ->
    (exists r,
        Home.compute_metrics powr
          (Home.portfolio_values (map (fun r => (fst r, Number (snd r))) df))
        = Ok r /\
        mr_total_return r = NaN) /\
    Main.total_return
      (Main.main_df (map (fun r => (fst r, Number (snd r))) df))
    = Ok NaN.
Proof.
  intros powr df m Im Hm Hbad.
  set (csv := map (fun r : Z * float => (fst r, Number (snd r))) df).
  assert (D : map fst csv = map fst df)
    by (unfold csv; rewrite map_map; reflexivity).
  assert (B : forall c, In (m, c) csv -> is_nan (coerce c) = true).
  { intros c I. unfold csv in I. apply in_map_iff in I.
    destruct I as ([d v] & E & I). simpl in E. inversion E. subst.
    apply Hbad, I. }
  rewrite <- D in Im, Hm. split.
  - exact (boundary_date_without_number powr csv m Im Hm B).
  - exact (main_boundary_date_without_number csv m Im Hm B).
Qed.

Lemma missing_first_value_scenario :
  (exists r,
      Home.compute_metrics pow_stub
        (Home.portfolio_values
           [(date_2023_01_01, Number NaN);
            (date_2024_01_01, Number (of_int 120))]) = Ok r /\
      mr_total_return r = NaN) /\
  Main.total_return
    (Main.main_df
       [(date_2023_01_01, Number NaN);
        (date_2024_01_01, Number (of_int 120))]) = Ok NaN.
Proof.
  apply (missing_boundary_value_gives_nan_return pow_stub
           [(date_2023_01_01, NaN); (date_2024_01_01, of_int 120)]
           date_2023_01_01).
  - simpl. auto.
  - left. intros d [H|[H|[]]]; subst; vm_compute; discriminate.
  - intros v [H|[H|[]]]; inversion H. reflexivity.
Defined.

(** ** Period returns and the cumulative curve *)

Lemma ffill_from_fin (prev : float) (qs : list Qc) :
  ffill_from prev (map Fin qs) = map Fin qs.
Proof.
  revert prev. induction qs as [|q qs IH]; intro prev; simpl;
    [reflexivity|].
  rewrite IH. reflexivity.
Qed.

Lemma combine_removelast {A B : Type} (l : list A) (b : B) (l' : list B) :
  length l' = length l ->
  combine l (removelast (b :: l')) = combine l (b :: l').
Proof.
  revert b l'. induction l as [|x l IH]; intros b l' H; [reflexivity|].
  destruct l' as [|y l']; [discriminate|].
  change (removelast (b :: y :: l')) with (b :: removelast (y :: l')).
  simpl. apply f_equal. apply IH. simpl in H. congruence.
Qed.

Lemma changes_of_positive (q0 : Qc) (qr : list Qc) :
  q0 <> 0 ->
  Forall (fun x => x <> 0) qr ->
  zip_with (fun x y => fsub (fdiv x y) one) (map Fin qr) (map Fin (q0 :: qr))
  = map Fin (returns_from q0 qr).
Proof.
  revert q0. induction qr as [|q qr IH]; intros q0 H0 Hall; [reflexivity|].
  apply Forall_cons_iff in Hall. destruct Hall as [Hq Hall].
  unfold zip_with in *. cbn [combine map fst snd].
  rewrite fdiv_fin by exact H0. rewrite one_fin, fsub_fin.
  change (map Fin (returns_from q0 (q :: qr)))
    with (Fin (q / q0 - 1) :: map Fin (returns_from q qr)).
  apply f_equal. apply (IH q Hq Hall).
Qed.

Lemma pct_change_positive (pad : bool) (s : Series) (d0 : Z) (dr : list Z)
      (q0 : Qc) (qr : list Qc) :
  map fst s = d0 :: dr ->
  map snd s = map Fin (q0 :: qr) ->
  q0 <> 0 ->
  Forall (fun x => x <> 0) qr ->
  pct_change pad s = (d0, NaN) :: combine dr (map Fin (returns_from q0 qr)).
Proof.
  intros Hd Hv H0 Hall. unfold pct_change. rewrite Hd.
  assert (D : (if pad then ffill (map snd s) else map snd s)
              = Fin q0 :: map Fin qr).
  { rewrite Hv. destruct pad; [|reflexivity].
    unfold ffill. apply (ffill_from_fin NaN (q0 :: qr)). }
  rewrite D. unfold shift, zip_with.
  cbn [combine map fst snd]. apply f_equal.
  rewrite combine_removelast by reflexivity.
  exact (f_equal (combine dr) (changes_of_positive q0 qr H0 Hall)).
Qed.

Lemma dropna_fin (ds : list Z) (rs : list Qc) :
  dropna (combine ds (map Fin rs)) = combine ds (map Fin rs).
Proof.
  unfold dropna. revert rs. induction ds as [|d ds IH]; intro rs;
    [reflexivity|].
  destruct rs as [|r rs]; [reflexivity|]. simpl. rewrite IH. reflexivity.
Qed.

Lemma positive_nonzero (qs : list Qc) :
  Forall (fun x => 0 < x) qs -> Forall (fun x => x <> 0) qs.
Proof.
  apply Forall_impl. intros q H. apply Qclt_neq_sym, H.
Qed.

Lemma series_columns (s : Series) (qs : list Qc) :
  map snd s = map Fin qs ->
  match qs with
  | [] => s = []
  | q0 :: qr => exists d0 dr,
      map fst s = d0 :: dr /\ length dr = length qr
  end.
Proof.
  intro H. destruct qs as [|q0 qr]; destruct s as [|[d v] s];
    try discriminate; [reflexivity|].
  exists d, (map fst s). split; [reflexivity|].
  simpl in H. injection H as _ H'.
  rewrite length_map, <- (length_map snd s), H'. apply length_map.
Qed.

Lemma portfolio_returns_positive (pad : bool) (s : Series) (qs : list Qc) :
  map snd s = map Fin qs ->
  Forall (fun x => 0 < x) qs ->
  Home.portfolio_returns pad s =
  combine (tl (map fst s))
          (map Fin (match qs with [] => [] | q0 :: qr => returns_from q0 qr end)).
Proof.
  intros Hv Hpos. pose proof (series_columns s qs Hv) as C.
  destruct qs as [|q0 qr].
  - subst s. reflexivity.
  - destruct C as (d0 & dr & Hd & _).
    apply positive_nonzero, Forall_cons_iff in Hpos.
    destruct Hpos as [H0 Hall].
    unfold Home.portfolio_returns.
    rewrite (pct_change_positive pad s d0 dr q0 qr Hd Hv H0 Hall), Hd.
    unfold dropna. cbn [filter snd is_nan negb tl].
    apply dropna_fin.
Qed.

Lemma returns_from_length (p : Qc) (qs : list Qc) :
  length (returns_from p qs) = length qs.
Proof.
  revert p. induction qs as [|q qs IH]; intro p; simpl; [reflexivity|].
  rewrite IH. reflexivity.
Qed.

Lemma returns_from_nth (p : Qc) (qs : list Qc) (k : nat) (q q' : Qc) :
  nth_error (p :: qs) k = Some q ->
  nth_error (p :: qs) (S k) = Some q' ->
  nth_error (returns_from p qs) k = Some (q' / q - 1).
Proof.
  revert p k. induction qs as [|x qs IH]; intros p k Hq Hq'.
  - destruct k; discriminate.
  - destruct k as [|k]; simpl in *.
    + inversion Hq. inversion Hq'. reflexivity.
    + apply IH; assumption.
Qed.

Lemma nth_error_combine {A B : Type} (l : list A) (l' : list B) (k : nat)
      (a : A) (b : B) :
  nth_error l k = Some a ->
  nth_error l' k = Some b ->
  nth_error (combine l l') k = Some (a, b).
Proof.
  revert l' k. induction l as [|x l IH]; intros l' k Ha Hb.
  - destruct k; discriminate.
  - destruct l' as [|y l']; [destruct k; discriminate|].
    destruct k as [|k]; simpl in *.
    + inversion Ha. inversion Hb. reflexivity.
    + apply IH; assumption.
Qed.

Lemma nth_error_tl {A : Type} (l : list A) (k : nat) :
  nth_error (tl l) k = nth_error l (S k).
Proof. destruct l; [destruct k|]; reflexivity. Qed.

Lemma ratio_above_minus_one (qs : list Qc) (k : nat) (q q' : Qc) :
  Forall (fun x => 0 < x) qs ->
  nth_error qs k = Some q ->
  nth_error qs (S k) = Some q' ->
  - (1) < q' / q - 1.
Proof.
  intros Hpos Hq Hq'. rewrite Forall_forall in Hpos.
  apply drawdown_above_minus_one; apply Hpos; eapply nth_error_In; eassumption.
Qed.

(** On a series of strictly positive values, with or without forward
    filling, the period returns of [Home.py] line 27 have one entry for
    every date but the first; the entry of a date is the value of that date
    divided by the value of the date before, minus one, and lies above -1.
    A series with a single date gives no return at all. *)
Theorem portfolio_returns_of_positive_series :
  forall (pad : bool) (s : Series) (qs : list Qc),
    map snd s = map Fin qs ->
    Forall (fun x => 0 < x) qs ->
    map fst (Home.portfolio_returns pad s) = tl (map fst s) /\
    forall k d q q',
      nth_error (map fst s) (S k) = Some d ->
      nth_error qs k = Some q ->
      nth_error qs (S k) = Some q' ->
      nth_error (Home.portfolio_returns pad s) k = Some (d, Fin (q' / q - 1)) /\
      - (1) < q' / q - 1.
Proof.
  intros pad s qs Hv Hpos.
  rewrite (portfolio_returns_positive pad s qs Hv Hpos).
  pose proof (series_columns s qs Hv) as C. destruct qs as [|q0 qr].
  - subst s. split; [reflexivity|]. intros k d q q' Hd. destruct k; discriminate.
  - destruct C as (d0 & dr & Hd & Hlen). rewrite Hd. cbn [tl]. split.
    + apply map_fst_combine. rewrite length_map, returns_from_length.
      symmetry. exact Hlen.
    + intros k d q q' Hk Hq Hq'. split.
      * apply nth_error_combine; [exact Hk|].
        apply map_nth_error, returns_from_nth; assumption.
      * exact (ratio_above_minus_one (q0 :: qr) k q q' Hpos Hq Hq').
Qed.

Lemma portfolio_returns_scenario :
  map fst
    (Home.portfolio_returns true
       [(date_2023_01_01, of_int 100); (date_2023_07_01, of_int 80);
        (date_2024_01_01, of_int 120)])
  = [date_2023_07_01; date_2024_01_01].
Proof.
  assert (P : Forall (fun x => 0 < x) [Q2Qc 100; Q2Qc 80; Q2Qc 120])
    by (repeat constructor).
  exact (proj1 (portfolio_returns_of_positive_series true
                  [(date_2023_01_01, of_int 100); (date_2023_07_01, of_int 80);
                   (date_2024_01_01, of_int 120)]
                  [Q2Qc 100; Q2Qc 80; Q2Qc 120] eq_refl P)).
Defined.

Lemma growth_step (a p q : Qc) : p <> 0 -> a * (1 + (q / p - 1)) = a * (q / p).
Proof. intro H. field. exact H. Qed.

Lemma growth_chain (a p q x : Qc) :
  p <> 0 -> q <> 0 -> a * (q / p) * (x / q) = a * (x / p).
Proof. intros Hp Hq. field. split; assumption. Qed.

Lemma cumprod_of_returns (a p : Qc) (l : list Qc) :
  p <> 0 ->
  Forall (fun x => x <> 0) l ->
  cumprod_from (Fin a) (map (fadd one) (map Fin (returns_from p l)))
  = map (fun q => Fin (a * (q / p))) l.
Proof.
  revert a p. induction l as [|q l IH]; intros a p Hp Hall; [reflexivity|].
  apply Forall_cons_iff in Hall. destruct Hall as [Hq Hall].
  cbn [returns_from map cumprod_from fadd one of_int is_nan fmul].
  change (Q2Qc (inject_Z 1)) with 1.
  rewrite (growth_step a p q Hp). apply f_equal.
  rewrite (IH (a * (q / p)) q Hq Hall).
  apply map_ext. intro x. rewrite (growth_chain a p q x Hp Hq). reflexivity.
Qed.

Lemma filter_all {A : Type} (p : A -> bool) (l : list A) :
  (forall x, In x l -> p x = true) -> filter p l = l.
Proof.
  induction l as [|x l IH]; intro H; [reflexivity|].
  simpl. rewrite (H x (or_introl eq_refl)). apply f_equal, IH.
  intros y Hy. apply H. right. exact Hy.
Qed.

Lemma map_snd_combine {A B : Type} (l : list A) (l' : list B) :
  length l = length l' -> map snd (combine l l') = l'.
Proof.
  revert l'. induction l as [|a l IH]; intros l' H.
  - destruct l'; [reflexivity | discriminate].
  - destruct l' as [|b l']; [discriminate|].
    simpl. rewrite IH; [reflexivity | simpl in H; congruence].
Qed.

Lemma port_ret_covered (returns bench : Series) :
  (forall d, In d (map fst returns) -> In d (map fst bench)) ->
  Home.port_ret returns bench = returns.
Proof.
  intro H. unfold Home.port_ret, align_inner. apply filter_all.
  intros r Hr. apply existsb_exists. exists (fst r).
  split; [apply H, in_map, Hr | apply Z.eqb_refl].
Qed.

Lemma iloc_last_nth {A : Type} (l : list A) (m : nat) (a : A) :
  length l = S m -> nth_error l m = Some a -> iloc l (-1) = Ok a.
Proof.
  intros Hlen H. unfold iloc. rewrite Hlen.
  replace (-1 <? 0)%Z with true by reflexivity.
  replace (Z.of_nat (S m) + -1)%Z with (Z.of_nat m) by lia.
  replace ((0 <=? Z.of_nat m)%Z && (Z.of_nat m <? Z.of_nat (S m))%Z)
    with true
    by (symmetry; apply andb_true_iff; split;
        [apply Z.leb_le | apply Z.ltb_lt]; lia).
  rewrite Nat2Z.id, H. reflexivity.
Qed.

Lemma iloc_first_nth {A : Type} (l : list A) (a : A) :
  nth_error l 0 = Some a -> iloc l 0 = Ok a.
Proof.
  intro H. rewrite iloc_first. destruct l; simpl in *; inversion H.
  reflexivity.
Qed.

Lemma port_cum_positive (pad : bool) (s bench : Series) (d0 : Z)
      (dr : list Z) (q0 : Qc) (qr : list Qc) :
  map fst s = d0 :: dr ->
  length dr = length qr ->
  map snd s = map Fin (q0 :: qr) ->
  Forall (fun x => 0 < x) (q0 :: qr) ->
  (forall d, In d dr -> In d (map fst bench)) ->
  Home.port_cum (Home.port_ret (Home.portfolio_returns pad s) bench)
  = combine dr (map (fun q => Fin (q / q0)) qr).
Proof.
  intros Hd Hlen Hv Hpos Hb.
  rewrite (portfolio_returns_positive pad s (q0 :: qr) Hv Hpos), Hd.
  cbn [tl].
  assert (L : length dr = length (map Fin (returns_from q0 qr)))
    by (rewrite length_map, returns_from_length; exact Hlen).
  rewrite port_ret_covered
    by (rewrite map_fst_combine by (symmetry; exact L); exact Hb).
  unfold Home.port_cum.
  rewrite map_fst_combine by (symmetry; exact L).
  rewrite map_snd_combine by exact L.
  apply positive_nonzero, Forall_cons_iff in Hpos. destruct Hpos as [H0 Hall].
  unfold cumprod, one, of_int. change (Q2Qc (inject_Z 1)) with 1.
  change (Fin 1) with one at 2.
  rewrite (cumprod_of_returns 1 q0 qr H0 Hall).
  apply f_equal, map_ext. intro q. rewrite Qcmult_1_l. reflexivity.
Qed.

(** When the benchmark has a return for every date of the portfolio
    returns, the cumulative curve of [Home.py] (lines 27, 39 and 44) on a
    series of strictly positive values is, at every date after the first,
    the value of that date divided by the first value; at the last date the
    plotted quantity, the curve minus one, is the total return of line
    82. *)
Theorem cumulative_curve_is_growth_since_first_value :
  forall (pad : bool) (s bench : Series) (qs : list Qc),
    map snd s = map Fin qs ->
    Forall (fun x => 0 < x) qs ->
    (forall d, In d (tl (map fst s)) -> In d (map fst bench)) ->
    forall k d q0 q,
      nth_error qs 0 = Some q0 ->
      nth_error qs (S k) = Some q ->
      nth_error (map fst s) (S k) = Some d ->
      nth_error
        (Home.port_cum (Home.port_ret (Home.portfolio_returns pad s) bench)) k
      = Some (d, Fin (q / q0)) /\
      (length s = S (S k) ->
       Home.total_return s = Ok (fsub (Fin (q / q0)) one)).
Proof.
  intros pad s bench qs Hv Hpos Hb k d q0 q H0 Hq Hd.
  pose proof (series_columns s qs Hv) as C.
  destruct qs as [|q0' qr]; [discriminate|].
  simpl in H0. inversion H0. subst q0'.
  destruct C as (d0 & dr & Hds & Hlen).
  rewrite Hds in Hb, Hd. cbn [tl] in Hb. simpl in Hd, Hq. split.
  - rewrite (port_cum_positive pad s bench d0 dr q0 qr Hds Hlen Hv Hpos Hb).
    apply nth_error_combine; [exact Hd|].
    exact (map_nth_error (fun x => Fin (x / q0)) k qr Hq).
  - intro L. unfold Home.total_return.
    assert (Ev : nth_error (map snd s) (S k) = Some (Fin q))
      by (rewrite Hv; exact (map_nth_error Fin (S k) (q0 :: qr) Hq)).
    assert (E0 : nth_error (map snd s) 0 = Some (Fin q0))
      by (rewrite Hv; reflexivity).
    rewrite (iloc_last_nth (map snd s) (S k) (Fin q))
      by (rewrite ?length_map; assumption).
    rewrite (iloc_first_nth (map snd s) (Fin q0) E0). cbn [bind].
    rewrite fdiv_fin; [reflexivity|].
    apply Qclt_neq_sym. apply Forall_inv in Hpos. exact Hpos.
Qed.

Lemma cumulative_curve_scenario :
  nth_error
    (Home.port_cum
       (Home.port_ret
          (Home.portfolio_returns true
             [(date_2023_01_01, of_int 100); (date_2023_07_01, of_int 80);
              (date_2024_01_01, of_int 120)])
          [(date_2023_07_01, of_int 0); (date_2024_01_01, of_int 0)])) 1
  = Some (date_2024_01_01, Fin (Q2Qc 120 / Q2Qc 100)).
Proof.
  assert (P : Forall (fun x => 0 < x) [Q2Qc 100; Q2Qc 80; Q2Qc 120])
    by (repeat constructor).
  refine (proj1 (cumulative_curve_is_growth_since_first_value true
            [(date_2023_01_01, of_int 100); (date_2023_07_01, of_int 80);
             (date_2024_01_01, of_int 120)]
            [(date_2023_07_01, of_int 0); (date_2024_01_01, of_int 0)]
            [Q2Qc 100; Q2Qc 80; Q2Qc 120] eq_refl P _
            1%nat date_2024_01_01 (Q2Qc 100) (Q2Qc 120)
            eq_refl eq_refl eq_refl)).
  intros d H. exact H.
Defined.

(** ** The series of the benchmark chart *)

Lemma insert_by_date_map {A B : Type} (f : A -> B) (r : Z * A)
      (df : DataFrame A) :
  insert_by_date (fst r, f (snd r)) (map (fun x => (fst x, f (snd x))) df)
  = map (fun x => (fst x, f (snd x))) (insert_by_date r df).
Proof.
  induction df as [|y df IH]; simpl; [reflexivity|].
  destruct (fst r <=? fst y)%Z; simpl; [reflexivity|].
  rewrite IH. reflexivity.
Qed.

Lemma sort_values_map {A B : Type} (f : A -> B) (df : DataFrame A) :
  sort_values (map (fun x => (fst x, f (snd x))) df)
  = map (fun x => (fst x, f (snd x))) (sort_values df).
Proof.
  unfold sort_values. induction df as [|r df IH]; simpl; [reflexivity|].
  rewrite IH. apply insert_by_date_map.
Qed.

(** On a file whose value column holds numbers only, the series behind the
    benchmark chart ([Home.py] lines 22-26, no coercion) is the series
    behind the KPIs (lines 68-79, with coercion): both pick, for every
    date, the same value. *)
Theorem chart_series_is_kpi_series :
  forall df : DataFrame float,
    Home.portfolio df =
    Home.portfolio_values (map (fun r => (fst r, Number (snd r))) df).
Proof.
  intro df. rewrite portfolio_values_groupby.
  unfold Home.portfolio, Home.main_df, to_numeric.
  rewrite (sort_values_map Number df), map_map. simpl.
  apply f_equal. symmetry.
  transitivity (map (fun r : Z * float => r) (sort_values df));
    [|apply map_id].
  apply map_ext. intros [d v]. reflexivity.
Qed.
